(** * Re-TurnScan: the pairing-and-merge engine of [merge_scan.py]

    A shallow embedding of the five core functions of [merge_scan.py]
    ([detect_rotation_osd], [correct_pdf_pages], [get_pdf_page_count],
    [merge_front_back], [find_and_merge_pairs]) together with the properties
    its specification states about them.

    Conventions of the embedding.
    - Python text is a [string] whose characters are code points below 256.
    - Time stamps ([st_mtime], [datetime.now()]) are integers counting
      microseconds, the resolution of [datetime]; [timedelta(seconds=n)] is
      [n * 10^6]. Rounding of the float [st_mtime] is not modelled.
    - Python exceptions are values of type [exn]; a function that can raise
      returns [Raise e], and [try ... except] is [try_except].
    - The watched folder and the log are the state threaded through every
      function; the external tools (tesseract, pdf2image, the clock's
      formatting) are the fields of a read-only [World]. *)

From Stdlib Require Import ZArith Ascii String List Lia Permutation Sorted.
From stdpp Require Import base gmap sets list strings pretty.

Local Open Scope Z_scope.

(** ** Python string primitives used by the program *)

Module PyStr.

(** [str.startswith(prefix)] *)
Definition startswith (pre s : string) : bool := String.prefix pre s.

(** [str.endswith(suffix)] *)
Definition endswith (suf s : string) : bool :=
  String.prefix (String.rev suf) (String.rev s).

(** Line boundaries of [str.splitlines()] among code points below 256:
    LF, VT, FF, CR, FS, GS, RS and NEL. *)
Definition is_line_boundary (c : ascii) : bool :=
  match c with
  | "010" | "011" | "012" | "013" | "028" | "029" | "030" | "133" => true
  | _ => false
  end%char.

Definition is_cr (c : ascii) : bool :=
  match c with "013"%char => true | _ => false end.

Definition is_lf (c : ascii) : bool :=
  match c with "010"%char => true | _ => false end.

(** [str.splitlines()]: [cur] is the line being read, [after_cr] tells that
    the previous character was a CR, so that CR LF ends one line only.  A
    final line without terminator is kept, an empty remainder is not. *)
Fixpoint splitlines_go (cur : string) (after_cr : bool) (s : string)
  : list string :=
  match s with
  | EmptyString =>
      match cur with EmptyString => [] | _ => [cur] end
  | String c r =>
      if after_cr && is_lf c then splitlines_go cur false r
      else if is_line_boundary c
           then cur :: splitlines_go EmptyString (is_cr c) r
           else splitlines_go (cur +:+ String c EmptyString) false r
  end.

Definition splitlines (s : string) : list string :=
  splitlines_go EmptyString false s.

(** [str.split(sep)] for a one-character separator. *)
Fixpoint split_go (sep : ascii) (cur : string) (s : string) : list string :=
  match s with
  | EmptyString => [cur]
  | String c r =>
      if Ascii.eqb c sep then cur :: split_go sep EmptyString r
      else split_go sep (cur +:+ String c EmptyString) r
  end.

Definition split (sep : ascii) (s : string) : list string :=
  split_go sep EmptyString s.

(** [str.isspace()] on one code point below 256. *)
Definition is_space (c : ascii) : bool :=
  match c with
  | "009" | "010" | "011" | "012" | "013"
  | "028" | "029" | "030" | "031" | " " | "133" | "160" => true
  | _ => false
  end%char.

Fixpoint lstrip (s : string) : string :=
  match s with
  | String c r => if is_space c then lstrip r else s
  | EmptyString => EmptyString
  end.

(** [str.strip()] *)
Definition strip (s : string) : string :=
  String.rev (lstrip (String.rev (lstrip s))).

(** The value of a decimal digit, from its code point. *)
Definition digit_value (c : ascii) : option Z :=
  let code := Z.of_N (N_of_ascii c) in
  if (48 <=? code) && (code <=? 57) then Some (code - 48) else None.

(** The digits of a decimal literal as [int()] reads them: at least one
    digit, single underscores allowed between two digits only.
    [after_digit] tells that the previous character was a digit. *)
Fixpoint digits_go (acc : Z) (after_digit : bool) (s : string) : option Z :=
  match s with
  | EmptyString => if after_digit then Some acc else None
  | String c r =>
      match digit_value c with
      | Some d => digits_go (10 * acc + d) true r
      | None =>
          if Ascii.eqb c "_"%char && after_digit then digits_go acc false r
          else None
      end
  end.

(** [int(s)] in base ten; [None] stands for [ValueError]. *)
Definition int (s : string) : option Z :=
  match strip s with
  | String "+"%char r => digits_go 0 false r
  | String "-"%char r => Z.opp <$> digits_go 0 false r
  | t => digits_go 0 false t
  end.

(** [Path.stem]: the name without its last suffix; a leading or a trailing
    dot does not start a suffix.  [cut_last_dot] reads the reversed name and
    returns the reversed part before the last dot. *)
Fixpoint cut_last_dot (r : string) : option string :=
  match r with
  | EmptyString => None
  | String c r' =>
      if Ascii.eqb c "."%char then Some r' else cut_last_dot r'
  end.

Definition stem (name : string) : string :=
  match String.rev name with
  | String "."%char _ => name
  | r =>
      match cut_last_dot r with
      | Some (String c0 r0) => String.rev (String c0 r0)
      | _ => name
      end
  end.

End PyStr.

Example splitlines_ex :
  PyStr.splitlines ("Orientation in degrees: 270" +:+ String "010"%char
                    ("Rotate: 90" +:+ String "013"%char (String "010"%char
                    ("x" +:+ String "010"%char ""))))
  = ["Orientation in degrees: 270"; "Rotate: 90"; "x"].
Proof. reflexivity. Qed.

Example split_ex : PyStr.split ":"%char "Rotate: 90" = ["Rotate"; " 90"].
Proof. reflexivity. Qed.

Example int_ex :
  PyStr.int " 90" = Some 90 /\ PyStr.int "-1_0" = Some (-10) /\
  PyStr.int "" = None /\ PyStr.int "9 0" = None /\ PyStr.int "_9" = None /\
  PyStr.int "+ 9" = None /\ PyStr.int "9__0" = None /\ PyStr.int "90_" = None.
Proof. repeat split; reflexivity. Qed.

Example stem_ex :
  PyStr.stem "front.pdf" = "front" /\ PyStr.stem "a.b.pdf" = "a.b" /\
  PyStr.stem ".pdf" = ".pdf" /\ PyStr.stem "x." = "x." /\ PyStr.stem "x" = "x".
Proof. repeat split; reflexivity. Qed.

(** ** Exceptions, the external world, the state and the monad *)

(** The Python exceptions the program meets.  All of them are subclasses of
    [Exception], which is what [except Exception] catches. *)
Inductive exn : Type :=
| FileNotFoundError
| TimeoutExpired
| ImportError
| IndexError
| ValueError (msg : string)
| OSError
| PdfReadError.

Inductive result (A : Type) : Type :=
| Ok (a : A)
| Raise (e : exn).
Arguments Ok {A} a.
Arguments Raise {A} e.

(** A page object of the PDF library: what it shows and its [/Rotate]
    entry. *)
Record Page : Type := mkPage { content : nat; rotation : Z }.

(** A rasterised page image, as [pdf2image] returns it. *)
Definition Image : Type := nat.

(** A file of the watched folder: [folder / name], its [stat().st_mtime] and
    what [PdfReader] finds in it ([None]: not a readable PDF). *)
Record File : Type := mkFile {
  name : string;
  st_mtime : Z;
  reader_pages : option (list Page)
}.

(** The external collaborators.  [subprocess_run] is what
    [subprocess.run(["tesseract", image, ...], timeout=30)] does on a saved
    image: the captured standard output, or the exception raised. *)
Record World : Type := mkWorld {
  subprocess_run : Image -> result string;
  pdf2image_importable : bool;
  convert_from_path : File -> result (list Image);
  image_save : Image -> result unit;
  strftime : Z -> string
}.

Inductive LogRecord : Type :=
| warn_unexpected_angle (angle : Z)
| warn_tesseract_missing
| warn_osd_timeout (image_path : Image)
| warn_osd_failed (e : exn)
| warn_pdf2image_missing
| warn_convert_failed (e : exn)
| info_rotating (page_no : nat) (angle : Z)
| warn_read_failed (pdf_path : string) (e : exn)
| info_merge_done (output_path : string) (n : nat)
| debug_count_mismatch (latest candidate : string) (latest_pages candidate_pages : Z)
| info_pair_detected (front back : string) (n : Z)
| error_merge_failed (e : exn).

(** The state: the entries of the watched folder, in the order in which the
    directory lists them, and the log written so far. *)
Record State : Type := mkState {
  files : list File;
  records : list LogRecord
}.

Definition M (A : Type) : Type := State -> result A * State.

Definition ret {A} (a : A) : M A := fun s => (Ok a, s).

Definition raise {A} (e : exn) : M A := fun s => (Raise e, s).

Definition bind {A B} (m : M A) (k : A -> M B) : M B :=
  fun s =>
    match m s with
    | (Ok a, s') => k a s'
    | (Raise e, s') => (Raise e, s')
    end.

(** [try: m except Exception as e: h e] *)
Definition try_except {A} (m : M A) (h : exn -> M A) : M A :=
  fun s =>
    match m s with
    | (Ok a, s') => (Ok a, s')
    | (Raise e, s') => h e s'
    end.

Definition lift {A} (r : result A) : M A := fun s => (r, s).

Definition logger (r : LogRecord) : M unit :=
  fun s => (Ok tt, mkState (files s) (records s ++ [r])).

Notation "x <- m ;; k" := (bind m (fun x => k))
  (at level 100, m at next level, right associativity).
Notation "m ;; k" := (bind m (fun _ => k))
  (at level 100, right associativity).

(** ** The core functions *)

(** *** [detect_rotation_osd] *)

(** [l[i]] on a Python list. *)
Definition py_index {A} (l : list A) (i : nat) : result A :=
  match l !! i with
  | Some x => Ok x
  | None => Raise IndexError
  end.

Definition canonical_angle (angle : Z) : bool :=
  (angle =? 0) || (angle =? 90) || (angle =? 180) || (angle =? 270).

(** The [for line in result.stdout.splitlines()] loop.  [Some a]: the
    function returns [a] from inside the loop; [None]: the loop is over,
    exhausted or left by [break]. *)
Fixpoint scan_rotate (lines : list string) : M (option Z) :=
  match lines with
  | [] => ret None
  | line :: rest =>
      if PyStr.startswith "Rotate:" line then
        field <- lift (py_index (PyStr.split ":"%char line) 1) ;;
        match PyStr.int (PyStr.strip field) with
        | None => ret None
        | Some angle =>
            if canonical_angle angle then ret (Some angle)
            else logger (warn_unexpected_angle angle) ;; ret (Some 0)
        end
      else scan_rotate rest
  end.

Definition detect_rotation_osd (w : World) (image_path : Image) : M Z :=
  returned <-
    try_except
      (stdout <- lift (subprocess_run w image_path) ;;
       scan_rotate (PyStr.splitlines stdout))
      (fun e =>
         match e with
         | FileNotFoundError => logger warn_tesseract_missing
         | TimeoutExpired => logger (warn_osd_timeout image_path)
         | _ => logger (warn_osd_failed e)
         end ;;
         ret None) ;;
  match returned with
  | Some angle => ret angle
  | None => ret 0
  end.

(** *** [correct_pdf_pages] *)

(** [PdfReader(str(pdf_path)).pages] *)
Definition PdfReader (pdf_path : File) : result (list Page) :=
  match reader_pages pdf_path with
  | Some ps => Ok ps
  | None => Raise PdfReadError
  end.

(** [page.rotate(angle)] of the PDF library: the angle is added to the
    page's rotation; an angle that is no multiple of 90 is refused. *)
Definition rotate (angle : Z) (page : Page) : result Page :=
  if angle mod 90 =? 0
  then Ok (mkPage (content page) (rotation page + angle))
  else Raise (ValueError "Rotation angle must be a multiple of 90").

(** The loop over [enumerate(zip(pages, images))]; the result is the list
    [corrected]. *)
Fixpoint correct_loop (w : World) (i : nat) (zipped : list (Page * Image))
  : M (list Page) :=
  match zipped with
  | [] => ret []
  | (page, image) :: rest =>
      lift (image_save w image) ;;
      angle <- detect_rotation_osd w image ;;
      page' <- (if negb (angle =? 0)
                then logger (info_rotating (i + 1) angle) ;;
                     lift (rotate angle page)
                else ret page) ;;
      corrected <- correct_loop w (S i) rest ;;
      ret (page' :: corrected)
  end.

Definition correct_pdf_pages (w : World) (pdf_path : File) : M (list Page) :=
  pages <- lift (PdfReader pdf_path) ;;
  if negb (pdf2image_importable w) then
    logger warn_pdf2image_missing ;;
    ret pages
  else
    converted <-
      try_except
        (images <- lift (convert_from_path w pdf_path) ;; ret (Some images))
        (fun e => logger (warn_convert_failed e) ;; ret None) ;;
    match converted with
    | None => ret pages
    | Some images => correct_loop w 0 (zip pages images)
    end.

(** *** [get_pdf_page_count] *)

Definition get_pdf_page_count (pdf_path : File) : M Z :=
  try_except
    (pages <- lift (PdfReader pdf_path) ;; ret (Z.of_nat (length pages)))
    (fun e => logger (warn_read_failed (name pdf_path) e) ;; ret (-1)).

(** *** [merge_front_back] *)

(** [writer.add_page(front_page); writer.add_page(back_page)] for every pair
    of the zip; the writer is the list of the pages added so far. *)
Definition add_pages (writer : list Page) (pairs : list (Page * Page))
  : list Page :=
  foldl (fun wr fb => wr ++ [fst fb; snd fb]) writer pairs.

(** [open(output_path, "wb")] followed by [writer.write(f)]: the entry of
    that name is replaced, or a new entry is made. *)
Fixpoint put_file (f : File) (l : list File) : list File :=
  match l with
  | [] => [f]
  | g :: l' =>
      if String.eqb (name g) (name f) then f :: l' else g :: put_file f l'
  end.

Definition write_pdf (now : Z) (output_path : string) (writer : list Page)
  : M unit :=
  fun s =>
    (Ok tt,
     mkState (put_file (mkFile output_path now (Some writer)) (files s))
             (records s)).

Definition mismatch_message (nf nb : nat) : string :=
  "ページ数が一致しません: 表面=" +:+ pretty nf +:+ ", 裏面=" +:+ pretty nb.

Definition merge_front_back (w : World) (now : Z)
    (front_path back_path : File) (output_path : string) : M unit :=
  front_pages <- correct_pdf_pages w front_path ;;
  back_pages <- correct_pdf_pages w back_path ;;
  if negb (length front_pages =? length back_pages)%nat then
    raise (ValueError (mismatch_message (length front_pages)
                                        (length back_pages)))
  else
    let writer := add_pages [] (zip front_pages (reverse back_pages)) in
    write_pdf now output_path writer ;;
    logger (info_merge_done output_path (length front_pages * 2)).

(** *** [find_and_merge_pairs] *)

Definition RECENT_FILE_WINDOW_SECONDS : Z := 120.
Definition PAIR_WINDOW_SECONDS : Z := 300.
Definition MERGED_PREFIX : string := "merged_".

Definition timedelta (seconds : Z) : Z := seconds * 1000000.

(** [folder.glob("*.pdf")] on the entries of the folder. *)
Definition glob_pdf (entries : list File) : list File :=
  List.filter (fun f => PyStr.endswith ".pdf" (name f)) entries.

(** The condition of the list comprehension. *)
Definition eligible (f : File) : bool :=
  negb (PyStr.startswith "." (name f))
  && negb (PyStr.startswith MERGED_PREFIX (name f)).

(** [sorted(..., key=st_mtime, reverse=True)]: descending, and stable (equal
    keys keep the order of the input). *)
Fixpoint insert_desc (f : File) (l : list File) : list File :=
  match l with
  | [] => [f]
  | g :: l' =>
      if st_mtime g <=? st_mtime f then f :: l else g :: insert_desc f l'
  end.

Definition sorted_desc (l : list File) : list File :=
  foldr insert_desc [] l.

Definition list_pdf_files (entries : list File) : list File :=
  sorted_desc (List.filter eligible (glob_pdf entries)).

(** [str(folder / name)] *)
Definition str_path (folder : string) (f : File) : string :=
  folder +:+ "/" +:+ name f.

(** [frozenset([str(latest), str(candidate)])] *)
Definition pair_key (folder : string) (latest candidate : File) : gset string :=
  {[ str_path folder latest; str_path folder candidate ]}.

(** The assignment of lines 238 to 241. *)
Definition front_back (latest candidate : File) : File * File :=
  if st_mtime candidate <? st_mtime latest
  then (candidate, latest)
  else (latest, candidate).

Definition output_name (w : World) (now : Z) (front back : File) : string :=
  MERGED_PREFIX +:+ strftime w now +:+ "_" +:+ PyStr.stem (name front)
    +:+ "_and_" +:+ PyStr.stem (name back) +:+ ".pdf".

(** The [for candidate in pdf_files[1:]] loop; [break] ends it, [continue]
    goes on with the rest. *)
Fixpoint pair_loop (w : World) (now : Z) (folder : string) (latest : File)
    (threshold : Z) (candidates : list File)
    (already_merged : gset (gset string)) : M (gset (gset string)) :=
  match candidates with
  | [] => ret already_merged
  | candidate :: rest =>
      if st_mtime candidate <? threshold then ret already_merged
      else
        let key := pair_key folder latest candidate in
        if decide (key ∈ already_merged)
        then pair_loop w now folder latest threshold rest already_merged
        else
          latest_pages <- get_pdf_page_count latest ;;
          candidate_pages <- get_pdf_page_count candidate ;;
          if (latest_pages <=? 0) || (candidate_pages <=? 0)
          then pair_loop w now folder latest threshold rest already_merged
          else if negb (latest_pages =? candidate_pages) then
            logger (debug_count_mismatch (name latest) (name candidate)
                                         latest_pages candidate_pages) ;;
            pair_loop w now folder latest threshold rest already_merged
          else
            let (front, back) := front_back latest candidate in
            let output_path := output_name w now front back in
            logger (info_pair_detected (name front) (name back)
                                       latest_pages) ;;
            already_merged' <-
              try_except
                (merge_front_back w now front back output_path ;;
                 ret ({[ key ]} ∪ already_merged))
                (fun e => logger (error_merge_failed e) ;;
                          ret already_merged) ;;
            pair_loop w now folder latest threshold rest already_merged'
  end.

(** The entries of the watched folder, as the call finds them. *)
Definition get_files : M (list File) := fun s => (Ok (files s), s).

(** One polling cycle.  [now] is the reading of [datetime.now()] during the
    call.  The Python function adds to the set it was given and returns
    that same object; here the set is a value and the updated one is
    returned. *)

Definition find_and_merge_pairs (w : World) (now : Z) (folder : string)
    (already_merged : gset (gset string)) : M (gset (gset string)) :=
  entries <- get_files ;;
  let pdf_files := list_pdf_files entries in
  if (length pdf_files <? 2)%nat then ret already_merged
  else
    latest <- lift (py_index pdf_files 0) ;;
    if now - st_mtime latest >? timedelta RECENT_FILE_WINDOW_SECONDS
    then ret already_merged
    else
      let threshold := st_mtime latest - timedelta PAIR_WINDOW_SECONDS in
      pair_loop w now folder latest threshold (drop 1 pdf_files)
                already_merged.

(** ** The scenarios of the test suite, run on the model *)

Module Scenario.

Definition nl : string := String "010"%char "".

(** A world with every tool present: a page whose content is [k]
    rasterises to the image [k], and tesseract reports [Rotate: k] on that
    image, so that the pages below choose the angle that is detected. *)
Definition tools : World :=
  mkWorld
    (fun img => Ok ("Orientation in degrees: 0" +:+ nl +:+
                    "Rotate: " +:+ pretty (Z.of_nat img) +:+ nl))
    true
    (fun f => Ok (match reader_pages f with
                  | Some ps => map (fun p => content p) ps
                  | None => []
                  end))
    (fun _ => Ok tt)
    (fun _ => "20240101_120000").

(** The same without [pdf2image]. *)
Definition no_rasterizer : World :=
  mkWorld (subprocess_run tools) false (convert_from_path tools)
          (image_save tools) (strftime tools).

Definition blank (k : nat) : Page := mkPage k 0.

Definition sec (n : Z) : Z := n * 1000000.

Definition front : File :=
  mkFile "front.pdf" (sec 940) (Some [blank 100; blank 200; blank 300]).
Definition back : File :=
  mkFile "back.pdf" (sec 1000) (Some [blank 600; blank 500; blank 400]).

Definition start (l : list File) : State := mkState l [].

(** A watched folder: a front batch, the back batch scanned a minute later,
    an AppleDouble companion, an output of an earlier run, a batch scanned
    five minutes and fifty seconds before the newest file, and one with the
    very time stamp of the newest file. *)
Definition scans : string := "/scans".
Definition older : File :=
  mkFile "older.pdf" (sec 940) (Some [blank 0; blank 90]).
Definition newer : File :=
  mkFile "newer.pdf" (sec 1000) (Some [blank 180; blank 45]).
Definition hidden : File := mkFile "._scan.pdf" (sec 1000) None.
Definition earlier_output : File :=
  mkFile "merged_old.pdf" (sec 1000) (Some [blank 1; blank 2]).
Definition aged : File :=
  mkFile "aged.pdf" (sec 650) (Some [blank 3; blank 4]).
Definition twin : File :=
  mkFile "twin.pdf" (sec 1000) (Some [blank 5; blank 6]).

(** A world whose rasteriser returns one image only for [older.pdf], so
    that the corrected sequence of that file has one page. *)
Definition one_image : World :=
  mkWorld (subprocess_run tools) true
          (fun f => if String.eqb (name f) "older.pdf" then Ok [0%nat]
                    else convert_from_path tools f)
          (image_save tools) (strftime tools).

End Scenario.

Example detect_parses_rotate_line :
  detect_rotation_osd Scenario.tools 90%nat (Scenario.start [])
  = (Ok 90, Scenario.start []).
Proof. reflexivity. Qed.

Example detect_rejects_45 :
  detect_rotation_osd Scenario.tools 45%nat (Scenario.start [])
  = (Ok 0, mkState [] [warn_unexpected_angle 45]).
Proof. reflexivity. Qed.

Example merge_page_order :
  files (snd (merge_front_back Scenario.no_rasterizer 0 Scenario.front
                Scenario.back "merged.pdf" (Scenario.start [])))
  = [mkFile "merged.pdf" 0
       (Some (map Scenario.blank [100; 400; 200; 500; 300; 600]%nat))].
Proof. reflexivity. Qed.

(** ** Computations that only write to the log *)

(** [logs m r rs]: whatever the state, [m] ends with [r], leaves the folder
    as it is and appends the records [rs]. *)
Definition logs {A} (m : M A) (r : result A) (rs : list LogRecord) : Prop :=
  forall s, m s = (r, mkState (files s) (records s ++ rs)).

Lemma state_eta (s : State) : mkState (files s) (records s) = s.
Proof. by destruct s. Qed.

Lemma logs_ret {A} (a : A) : logs (ret a) (Ok a) [].
Proof. intros s. unfold ret. by rewrite app_nil_r, state_eta. Qed.

Lemma logs_raise {A} (e : exn) : logs (@raise A e) (Raise e) [].
Proof. intros s. unfold raise. by rewrite app_nil_r, state_eta. Qed.

Lemma logs_lift {A} (r : result A) : logs (lift r) r [].
Proof. intros s. unfold lift. by rewrite app_nil_r, state_eta. Qed.

Lemma logs_logger (r : LogRecord) : logs (logger r) (Ok tt) [r].
Proof. by intros s. Qed.

Lemma logs_bind {A B} (m : M A) (k : A -> M B) a rs1 r rs2 :
  logs m (Ok a) rs1 -> logs (k a) r rs2 -> logs (bind m k) r (rs1 ++ rs2).
Proof.
  intros Hm Hk s. unfold bind. rewrite Hm, Hk. simpl. by rewrite app_assoc.
Qed.

Lemma logs_bind_raise {A B} (m : M A) (k : A -> M B) e rs :
  logs m (Raise e) rs -> logs (bind m k) (Raise e) rs.
Proof. intros Hm s. unfold bind. by rewrite Hm. Qed.

Lemma logs_try_ok {A} (m : M A) (h : exn -> M A) a rs :
  logs m (Ok a) rs -> logs (try_except m h) (Ok a) rs.
Proof. intros Hm s. unfold try_except. by rewrite Hm. Qed.

Lemma logs_try_raise {A} (m : M A) (h : exn -> M A) e rs1 r rs2 :
  logs m (Raise e) rs1 -> logs (h e) r rs2 ->
  logs (try_except m h) r (rs1 ++ rs2).
Proof.
  intros Hm Hh s. unfold try_except. rewrite Hm, Hh. simpl.
  by rewrite app_assoc.
Qed.

(** The records of the page corrector and of the merge engine: everything
    but the two records that the pair finder writes around a merge. *)
Definition quiet (r : LogRecord) : bool :=
  match r with
  | info_pair_detected _ _ _ | error_merge_failed _ => false
  | _ => true
  end.

Ltac quiet_records :=
  repeat first
    [ assumption
    | exact (List.Forall_nil _)
    | apply Forall_app; split
    | apply List.Forall_cons; [reflexivity|] ].

(** A computation of that kind, result and records left open, that writes
    quiet records only. *)
Definition log_only {A} (m : M A) : Prop :=
  exists r rs, logs m r rs /\ Forall (fun x => quiet x = true) rs.

Lemma log_only_ret {A} (a : A) : log_only (ret a).
Proof. exists (Ok a), []. split; [apply logs_ret|quiet_records]. Qed.

Lemma log_only_lift {A} (r : result A) : log_only (lift r).
Proof. exists r, []. split; [apply logs_lift|quiet_records]. Qed.

Lemma log_only_logger (r : LogRecord) : quiet r = true -> log_only (logger r).
Proof.
  intros Hq. exists (Ok tt), [r]. split; [apply logs_logger|].
  apply List.Forall_cons; [done|constructor].
Qed.

Lemma log_only_bind {A B} (m : M A) (k : A -> M B) :
  log_only m -> (forall a, log_only (k a)) -> log_only (bind m k).
Proof.
  intros (r & rs & Hm & Hq) Hk. destruct r as [a|e].
  - destruct (Hk a) as (r' & rs' & Hka & Hq').
    exists r', (rs ++ rs'). split; [by eapply logs_bind|quiet_records].
  - exists (Raise e), rs. split; [by apply logs_bind_raise|done].
Qed.

Lemma log_only_try {A} (m : M A) (h : exn -> M A) :
  log_only m -> (forall e, log_only (h e)) -> log_only (try_except m h).
Proof.
  intros (r & rs & Hm & Hq) Hh. destruct r as [a|e].
  - exists (Ok a), rs. split; [by apply logs_try_ok|done].
  - destruct (Hh e) as (r' & rs' & Hhe & Hq').
    exists r', (rs ++ rs'). split; [by eapply logs_try_raise|quiet_records].
Qed.

(** ** The orientation detector *)

(** The angle on a [Rotate:] line, when it has one that [int] accepts. *)
Definition rotate_angle (line : string) : option Z :=
  match PyStr.split ":"%char line !! 1%nat with
  | Some field => PyStr.int (PyStr.strip field)
  | None => None
  end.

(** The first line of the output that starts with [Rotate:]. *)
Definition rotate_line (stdout : string) : option string :=
  List.find (PyStr.startswith "Rotate:") (PyStr.splitlines stdout).

(** What the detector makes of a list of output lines. *)
Definition reported (lines : list string) : Z :=
  match List.find (PyStr.startswith "Rotate:") lines with
  | Some line =>
      match rotate_angle line with
      | Some angle => if canonical_angle angle then angle else 0
      | None => 0
      end
  | None => 0
  end.




Lemma canonical_angle_spec (a : Z) :
  canonical_angle a = true <-> a = 0 \/ a = 90 \/ a = 180 \/ a = 270.
Proof. unfold canonical_angle. lia. Qed.

Lemma reported_canonical lines : canonical_angle (reported lines) = true.
Proof.
  unfold reported. destruct (List.find _ lines); [|done].
  destruct (rotate_angle s) as [a|]; [|done].
  by destruct (canonical_angle a) eqn:E.
Qed.

Lemma scan_rotate_logs lines :
  exists r rs, logs (scan_rotate lines) r rs /\
    Forall (fun x => quiet x = true) rs /\
    match r with
    | Ok (Some angle) => angle = reported lines
    | Ok None | Raise _ => reported lines = 0
    end.
Proof.
  induction lines as [|line rest IH]; simpl.
  - exists (Ok None), []. split; [apply logs_ret|]. by split.
  - unfold reported, rotate_angle. simpl.
    destruct (PyStr.startswith "Rotate:" line) eqn:Hpre; [|exact IH].
    destruct (PyStr.split ":"%char line !! 1%nat) as [field|] eqn:Hf;
      unfold py_index; rewrite Hf.
    + destruct (PyStr.int (PyStr.strip field)) as [angle|] eqn:Hint.
      * destruct (canonical_angle angle) eqn:Hc.
        -- exists (Ok (Some angle)). eexists.
           split; [|split; [|done]].
           ++ eapply (logs_bind _ _ field); [apply logs_lift|].
              rewrite Hint, Hc. apply logs_ret.
           ++ quiet_records.
        -- exists (Ok (Some 0)). eexists.
           split; [|split; [|done]].
           ++ eapply (logs_bind _ _ field); [apply logs_lift|].
              rewrite Hint, Hc.
              eapply logs_bind; [apply logs_logger|apply logs_ret].
           ++ quiet_records.
      * exists (Ok None). eexists. split; [|split; [|done]].
        -- eapply (logs_bind _ _ field); [apply logs_lift|].
           rewrite Hint. apply logs_ret.
        -- quiet_records.
    + exists (Raise IndexError), []. split; [|by split].
      apply logs_bind_raise, logs_lift.
Qed.

(** The detector never raises, leaves the folder alone and returns what
    [reported] says of the tool's output, [0] when the tool failed. *)
Lemma detect_rotation_osd_logs (w : World) (image_path : Image) :
  exists rs,
    logs (detect_rotation_osd w image_path)
         (Ok (match subprocess_run w image_path with
              | Ok stdout => reported (PyStr.splitlines stdout)
              | Raise _ => 0
              end)) rs
    /\ Forall (fun x => quiet x = true) rs.
Proof.
  unfold detect_rotation_osd.
  destruct (subprocess_run w image_path) as [stdout|e] eqn:Hrun.
  - destruct (scan_rotate_logs (PyStr.splitlines stdout))
      as (r & rs & Hscan & Hq & Hr).
    assert (Hbody : logs (stdout0 <- lift (Ok stdout) ;;
                          scan_rotate (PyStr.splitlines stdout0)) r ([] ++ rs)).
    { eapply logs_bind; [apply logs_lift|exact Hscan]. }
    destruct r as [[angle|]|e].
    + eexists. split.
      * eapply logs_bind; [apply logs_try_ok, Hbody|].
        subst angle. apply logs_ret.
      * quiet_records.
    + eexists. split.
      * eapply logs_bind; [apply logs_try_ok, Hbody|].
        rewrite Hr. apply logs_ret.
      * quiet_records.
    + rewrite Hr.
      destruct e; eexists;
        (split;
         [eapply (logs_bind _ _ None);
          [eapply logs_try_raise;
           [exact Hbody
           |eapply (logs_bind _ _ tt); [apply logs_logger|apply logs_ret]]
          |apply logs_ret]
         |quiet_records]).
  - destruct e; eexists;
      (split;
       [eapply (logs_bind _ _ None);
        [eapply logs_try_raise;
         [apply logs_bind_raise, logs_lift
         |eapply (logs_bind _ _ tt); [apply logs_logger|apply logs_ret]]
        |apply logs_ret]
       |quiet_records]).
Qed.

(** C7.  [detect_rotation_osd] never raises and leaves the folder alone; the
    angle it returns is one of 0, 90, 180 and 270; it is 0 when running the
    tool raised (tool absent: [FileNotFoundError], time-out:
    [TimeoutExpired], or anything else), when no line of the output that
    starts with [Rotate:] carries an integer, and when the first such line
    carries an angle outside the four; it is the parsed angle when that
    angle is one of the four, and a non-zero result is always the angle
    parsed from the first [Rotate:] line. *)
Theorem detect_rotation_osd_degrades (w : World) (image_path : Image)
    (s : State) :
  exists angle rs,
    detect_rotation_osd w image_path s
      = (Ok angle, mkState (files s) (records s ++ rs)) /\
    (angle = 0 \/ angle = 90 \/ angle = 180 \/ angle = 270) /\
    (forall e, subprocess_run w image_path = Raise e -> angle = 0) /\
    (forall stdout,
       subprocess_run w image_path = Ok stdout ->
       (forall line, In line (PyStr.splitlines stdout) ->
          PyStr.startswith "Rotate:" line = true ->
          rotate_angle line = None) ->
       angle = 0) /\
    (forall stdout line a,
       subprocess_run w image_path = Ok stdout ->
       rotate_line stdout = Some line ->
       rotate_angle line = Some a ->
       angle = if canonical_angle a then a else 0) /\
    (angle <> 0 ->
     exists stdout line,
       subprocess_run w image_path = Ok stdout /\
       rotate_line stdout = Some line /\
       rotate_angle line = Some angle).
Proof.
  destruct (detect_rotation_osd_logs w image_path) as (rs & Hlogs & _).
  eexists _, rs. split; [apply Hlogs|].
  destruct (subprocess_run w image_path) as [stdout|e] eqn:Hrun.
  - split; [apply canonical_angle_spec, reported_canonical|].
    split; [done|]. unfold rotate_line, reported.
    split; [|split].
    + intros ? [= <-] Hnone.
      destruct (List.find _ _) as [line|] eqn:Hfind; [|done].
      apply find_some in Hfind as [Hin Hpre].
      by rewrite (Hnone line Hin Hpre).
    + intros ? line a [= <-] Hfind Ha. by rewrite Hfind, Ha.
    + intros Hnz. exists stdout.
      destruct (List.find _ _) as [line|] eqn:Hfind; [|done].
      exists line. split; [done|]. split; [done|].
      destruct (rotate_angle line) as [a|]; [|done].
      by destruct (canonical_angle a).
  - split; [by left|]. repeat split; try done.
Qed.

Example detect_tool_absent :
  detect_rotation_osd
    (mkWorld (fun _ => Raise FileNotFoundError) true
             (fun _ => Ok []) (fun _ => Ok tt) (fun _ => ""))
    0%nat (Scenario.start [])
  = (Ok 0, mkState [] [warn_tesseract_missing]).
Proof. reflexivity. Qed.

Example detect_stops_at_first_rotate_line :
  fst (detect_rotation_osd
         (mkWorld (fun _ => Ok ("Rotate: x" +:+ Scenario.nl +:+
                                "Rotate: 90" +:+ Scenario.nl))
                  true (fun _ => Ok []) (fun _ => Ok tt) (fun _ => ""))
         0%nat (Scenario.start []))
  = Ok 0.
Proof. reflexivity. Qed.

(** ** The page corrector *)

Lemma correct_loop_log_only (w : World) zipped :
  forall i, log_only (correct_loop w i zipped).
Proof.
  induction zipped as [|[page image] rest IH]; intros i; simpl.
  - apply log_only_ret.
  - apply log_only_bind; [apply log_only_lift|]. intros _.
    apply log_only_bind.
    { destruct (detect_rotation_osd_logs w image) as (rs & H & Hq).
      by eexists _, _. }
    intros angle. apply log_only_bind.
    { destruct (negb (angle =? 0)).
      - apply log_only_bind; [by apply log_only_logger|].
        intros _. apply log_only_lift.
      - apply log_only_ret. }
    intros page'. apply log_only_bind; [apply IH|].
    intros corrected. apply log_only_ret.
Qed.

Lemma correct_pdf_pages_log_only (w : World) (pdf_path : File) :
  log_only (correct_pdf_pages w pdf_path).
Proof.
  unfold correct_pdf_pages.
  apply log_only_bind; [apply log_only_lift|]. intros pages.
  destruct (negb (pdf2image_importable w)).
  - apply log_only_bind; [by apply log_only_logger|].
    intros _. apply log_only_ret.
  - apply log_only_bind.
    + apply log_only_try.
      * apply log_only_bind; [apply log_only_lift|].
        intros images. apply log_only_ret.
      * intros e. apply log_only_bind; [by apply log_only_logger|].
        intros _. apply log_only_ret.
    + intros [images|]; [apply correct_loop_log_only|].
      apply log_only_ret.
Qed.

(** C8.  When the PDF is readable and [pdf2image] cannot be imported, or its
    [convert_from_path] raises, [correct_pdf_pages] returns the pages of the
    reader as they are, without raising and without touching the folder. *)
Theorem correct_pdf_pages_fallback (w : World) (pdf_path : File)
    (pages : list Page) (s : State) :
  reader_pages pdf_path = Some pages ->
  pdf2image_importable w = false
  \/ (exists e, convert_from_path w pdf_path = Raise e) ->
  exists rs,
    correct_pdf_pages w pdf_path s
      = (Ok pages, mkState (files s) (records s ++ rs)).
Proof.
  intros Hread Hfail. unfold correct_pdf_pages, PdfReader. rewrite Hread.
  destruct (pdf2image_importable w) eqn:Himp; simpl.
  - destruct Hfail as [|[e He]]; [done|].
    eexists. revert s. fold (logs (A:=list Page)).
    eapply (logs_bind _ _ pages); [apply logs_lift|]. simpl.
    eapply (logs_bind _ _ None); [|apply logs_ret].
    eapply logs_try_raise.
    + rewrite He. apply logs_bind_raise, logs_lift.
    + eapply (logs_bind _ _ tt); [apply logs_logger|apply logs_ret].
  - eexists. revert s. fold (logs (A:=list Page)).
    eapply (logs_bind _ _ pages); [apply logs_lift|]. simpl.
    eapply (logs_bind _ _ tt); [apply logs_logger|apply logs_ret].
Qed.

Lemma correct_pdf_pages_fallback_witness :
  (exists rs,
     correct_pdf_pages Scenario.no_rasterizer Scenario.front
                       (Scenario.start [])
     = (Ok [Scenario.blank 100; Scenario.blank 200; Scenario.blank 300],
        mkState [] ([] ++ rs)))
  /\ (exists rs,
        correct_pdf_pages
          (mkWorld (subprocess_run Scenario.tools) true
                   (fun _ => Raise OSError) (fun _ => Ok tt) (fun _ => ""))
          Scenario.back (Scenario.start [])
        = (Ok [Scenario.blank 600; Scenario.blank 500; Scenario.blank 400],
           mkState [] ([] ++ rs))).
Proof.
  split.
  - apply (correct_pdf_pages_fallback Scenario.no_rasterizer Scenario.front
             _ (Scenario.start [])); [reflexivity|left; reflexivity].
  - apply (correct_pdf_pages_fallback _ Scenario.back _ (Scenario.start []));
      [reflexivity|right; exists OSError; reflexivity].
Defined.

(** ** The merge engine *)

(** The entry of the folder with a given name. *)
Definition find_file (n : string) (l : list File) : option File :=
  List.find (fun f => String.eqb (name f) n) l.

Lemma find_put_file (f : File) (l : list File) :
  find_file (name f) (put_file f l) = Some f.
Proof.
  unfold find_file. induction l as [|g l IH]; simpl.
  - by rewrite String.eqb_refl.
  - destruct (String.eqb (name g) (name f)) eqn:E; simpl.
    + by rewrite String.eqb_refl.
    + by rewrite E.
Qed.


Definition interleave (pairs : list (Page * Page)) : list Page :=
  flat_map (fun fb => [fst fb; snd fb]) pairs.

Lemma add_pages_interleave writer pairs :
  add_pages writer pairs = writer ++ interleave pairs.
Proof.
  unfold add_pages. revert writer.
  induction pairs as [|fb pairs IH]; intros writer; simpl.
  - by rewrite app_nil_r.
  - rewrite IH. by rewrite <- app_assoc.
Qed.

Lemma interleave_length pairs :
  length (interleave pairs) = (2 * length pairs)%nat.
Proof. induction pairs as [|fb pairs IH]; simpl; [done|]. rewrite IH. lia. Qed.

Lemma interleave_lookup pairs (i : nat) f b :
  pairs !! i = Some (f, b) ->
  interleave pairs !! (2 * i)%nat = Some f
  /\ interleave pairs !! (2 * i + 1)%nat = Some b.
Proof.
  revert i. induction pairs as [|fb pairs IH]; intros [|i] H; simplify_eq/=.
  - done.
  - replace (i + S (i + 0))%nat with (S (2 * i)) by lia.
    replace (S (2 * i) + 1)%nat with (S (2 * i + 1)) by lia.
    simpl. by apply IH.
Qed.

(** C1.  When the corrected page sequences of front and back both have [n]
    pages, [merge_front_back] ends normally and the file it writes at
    [output_path] has exactly [2 * n] pages: page [2 * i] is [front[i]] and
    page [2 * i + 1] is [back[n - 1 - i]], for every [i < n]. *)
Theorem merge_front_back_interleaves (w : World) (now : Z)
    (front_path back_path : File) (output_path : string) (s s1 s2 : State)
    (front_pages back_pages : list Page) (n : nat) :
  correct_pdf_pages w front_path s = (Ok front_pages, s1) ->
  correct_pdf_pages w back_path s1 = (Ok back_pages, s2) ->
  length front_pages = n ->
  length back_pages = n ->
  exists s' out,
    merge_front_back w now front_path back_path output_path s = (Ok tt, s') /\
    find_file output_path (files s')
      = Some (mkFile output_path now (Some out)) /\
    length out = (2 * n)%nat /\
    forall i, (i < n)%nat ->
      out !! (2 * i)%nat = front_pages !! i /\
      out !! (2 * i + 1)%nat = back_pages !! (n - 1 - i)%nat.
Proof.
  intros Hf Hb Hlf Hlb. unfold merge_front_back, bind at 1.
  rewrite Hf. unfold bind at 1. rewrite Hb.
  rewrite Hlf, Hlb, Nat.eqb_refl. simpl.
  eexists _, _. split; [reflexivity|]. simpl.
  split; [apply (find_put_file (mkFile output_path now _))|].
  rewrite add_pages_interleave. simpl.
  split.
  - rewrite interleave_length, length_zip_with, length_reverse. lia.
  - intros i Hi.
    destruct (lookup_lt_is_Some_2 front_pages i) as [f Hfi]; [lia|].
    destruct (lookup_lt_is_Some_2 back_pages (n - 1 - i)) as [b Hbi]; [lia|].
    rewrite Hfi, Hbi. apply interleave_lookup.
    rewrite lookup_zip_with, Hfi. simpl.
    rewrite reverse_lookup by lia.
    replace (length back_pages - S i)%nat with (n - 1 - i)%nat by lia.
    by rewrite Hbi.
Qed.

Lemma merge_front_back_interleaves_witness :
  exists s' out,
    merge_front_back Scenario.no_rasterizer 7 Scenario.front Scenario.back
                     "merged.pdf" (Scenario.start []) = (Ok tt, s') /\
    find_file "merged.pdf" (files s')
      = Some (mkFile "merged.pdf" 7 (Some out)) /\
    length out = (2 * 3)%nat /\
    forall i, (i < 3)%nat ->
      out !! (2 * i)%nat
        = [Scenario.blank 100; Scenario.blank 200; Scenario.blank 300] !! i /\
      out !! (2 * i + 1)%nat
        = [Scenario.blank 600; Scenario.blank 500; Scenario.blank 400]
            !! (3 - 1 - i)%nat.
Proof.
  apply (merge_front_back_interleaves Scenario.no_rasterizer 7 Scenario.front
           Scenario.back "merged.pdf" (Scenario.start [])
           (mkState [] [warn_pdf2image_missing])
           (mkState [] [warn_pdf2image_missing; warn_pdf2image_missing]));
    reflexivity.
Defined.

(** C2.  When the corrected page sequences have different lengths,
    [merge_front_back] raises the [ValueError] whose message carries both
    lengths in decimal, front first, and the folder is as it was: nothing
    was written. *)
Theorem merge_front_back_mismatch (w : World) (now : Z)
    (front_path back_path : File) (output_path : string) (s s1 s2 : State)
    (front_pages back_pages : list Page) :
  correct_pdf_pages w front_path s = (Ok front_pages, s1) ->
  correct_pdf_pages w back_path s1 = (Ok back_pages, s2) ->
  length front_pages <> length back_pages ->
  merge_front_back w now front_path back_path output_path s
    = (Raise (ValueError (mismatch_message (length front_pages)
                                           (length back_pages))), s2)
  /\ files s2 = files s
  /\ exists head middle,
       mismatch_message (length front_pages) (length back_pages)
       = head +:+ pretty (length front_pages) +:+ middle
           +:+ pretty (length back_pages).
Proof.
  intros Hf Hb Hne. split; [|split].
  - unfold merge_front_back, bind at 1. rewrite Hf.
    unfold bind at 1. rewrite Hb.
    by apply Nat.eqb_neq in Hne as ->.
  - destruct (correct_pdf_pages_log_only w front_path) as (r1 & rs1 & H1 & _).
    destruct (correct_pdf_pages_log_only w back_path) as (r2 & rs2 & H2 & _).
    rewrite H1 in Hf. rewrite H2 in Hb. by simplify_eq/=.
  - by eexists _, _.
Qed.

Lemma merge_front_back_mismatch_witness :
  merge_front_back Scenario.no_rasterizer 7 Scenario.front
    (mkFile "back.pdf" 0 (Some [Scenario.blank 1; Scenario.blank 2]))
    "merged.pdf" (Scenario.start [])
    = (Raise (ValueError (mismatch_message 3 2)),
       mkState [] [warn_pdf2image_missing; warn_pdf2image_missing])
  /\ @nil File = []
  /\ exists head middle,
       mismatch_message 3 2 = head +:+ pretty 3%nat +:+ middle +:+ pretty 2%nat.
Proof.
  apply (merge_front_back_mismatch Scenario.no_rasterizer 7 Scenario.front
           (mkFile "back.pdf" 0 (Some [Scenario.blank 1; Scenario.blank 2]))
           "merged.pdf" (Scenario.start [])
           (mkState [] [warn_pdf2image_missing])
           (mkState [] [warn_pdf2image_missing; warn_pdf2image_missing])
           [Scenario.blank 100; Scenario.blank 200; Scenario.blank 300]
           [Scenario.blank 1; Scenario.blank 2]);
    [reflexivity|reflexivity|simpl; lia].
Defined.

(** What [merge_front_back] does is fixed by the world and the two inputs:
    [corrected] is the page sequence of one input (or the exception of the
    corrector), [merge_result] the pages that get written (or the exception
    that is raised). *)
Definition corrected (w : World) (pdf_path : File) : result (list Page) :=
  fst (correct_pdf_pages w pdf_path (mkState [] [])).

Lemma correct_pdf_pages_corrected (w : World) (pdf_path : File) :
  exists rs,
    logs (correct_pdf_pages w pdf_path) (corrected w pdf_path) rs
    /\ Forall (fun x => quiet x = true) rs.
Proof.
  destruct (correct_pdf_pages_log_only w pdf_path) as (r & rs & H & Hq).
  exists rs. split; [|done]. unfold corrected. by rewrite H.
Qed.

Definition merge_result (w : World) (front_path back_path : File)
  : result (list Page) :=
  match corrected w front_path with
  | Raise e => Raise e
  | Ok front_pages =>
      match corrected w back_path with
      | Raise e => Raise e
      | Ok back_pages =>
          if (length front_pages =? length back_pages)%nat
          then Ok (add_pages [] (zip front_pages (reverse back_pages)))
          else Raise (ValueError (mismatch_message (length front_pages)
                                                   (length back_pages)))
      end
  end.

Lemma merge_front_back_run (w : World) (now : Z) (front_path back_path : File)
    (output_path : string) :
  exists rs,
    Forall (fun x => quiet x = true) rs /\
    forall s,
      merge_front_back w now front_path back_path output_path s
      = match merge_result w front_path back_path with
        | Ok out =>
            (Ok tt,
             mkState (put_file (mkFile output_path now (Some out)) (files s))
                     (records s ++ rs))
        | Raise e => (Raise e, mkState (files s) (records s ++ rs))
        end.
Proof.
  destruct (correct_pdf_pages_corrected w front_path) as (rs1 & H1 & Hq1).
  destruct (correct_pdf_pages_corrected w back_path) as (rs2 & H2 & Hq2).
  unfold merge_result, merge_front_back.
  destruct (corrected w front_path) as [fp|e1].
  - destruct (corrected w back_path) as [bp|e2].
    + destruct (length fp =? length bp)%nat eqn:Hlen.
      * exists (rs1 ++ rs2 ++ [info_merge_done output_path (length fp * 2)]).
        split; [quiet_records|]. intros s.
        unfold bind at 1. rewrite H1. unfold bind at 1. rewrite H2.
        rewrite Hlen. unfold bind, write_pdf, logger. simpl.
        by rewrite <- !app_assoc.
      * exists (rs1 ++ rs2). split; [quiet_records|]. intros s.
        unfold bind at 1. rewrite H1. unfold bind at 1. rewrite H2.
        rewrite Hlen. unfold raise. simpl. by rewrite <- !app_assoc.
    + exists (rs1 ++ rs2). split; [quiet_records|]. intros s.
      unfold bind at 1. rewrite H1. unfold bind at 1. rewrite H2.
      simpl. by rewrite <- !app_assoc.
  - exists rs1. split; [done|]. intros s.
    unfold bind at 1. by rewrite H1.
Qed.

(** ** The pair finder *)

(** What [get_pdf_page_count] returns. *)
Definition page_count (f : File) : Z :=
  match reader_pages f with
  | Some ps => Z.of_nat (length ps)
  | None => -1
  end.

Lemma get_pdf_page_count_logs (f : File) :
  exists rs,
    logs (get_pdf_page_count f) (Ok (page_count f)) rs
    /\ Forall (fun x => quiet x = true) rs.
Proof.
  unfold get_pdf_page_count, page_count, PdfReader.
  destruct (reader_pages f) as [ps|]; eexists; split.
  - apply logs_try_ok. eapply logs_bind; [apply logs_lift|apply logs_ret].
  - quiet_records.
  - eapply logs_try_raise; [apply logs_bind_raise, logs_lift|].
    eapply logs_bind; [apply logs_logger|apply logs_ret].
  - quiet_records.
Qed.

Lemma quiet_or (P : LogRecord -> Prop) (rs : list LogRecord) :
  Forall (fun x => quiet x = true) rs ->
  Forall (fun r => quiet r = true \/ P r) rs.
Proof. intros H. eapply Forall_impl; [exact H|]. intros r Hr. by left. Qed.

Ltac run_monad := unfold bind, try_except, logger, ret, raise, lift; simpl.

Section Walk.

Variables (w : World) (now : Z) (folder : string) (latest : File)
          (threshold : Z).

(** Both page counts were read and agree: the tests of lines 226 and
    229 let the candidate through. *)
Definition counts_match (candidate : File) : bool :=
  negb ((page_count latest <=? 0) || (page_count candidate <=? 0))
  && (page_count latest =? page_count candidate).

(** The loop body reaches the merge for this candidate. *)
Definition attempts (candidate : File) (already_merged : gset (gset string))
  : bool :=
  bool_decide (pair_key folder latest candidate ∉ already_merged)
  && counts_match candidate.

(** The outcome of the merge the loop body asks for. *)
Definition merged (candidate : File) : result (list Page) :=
  merge_result w (fst (front_back latest candidate))
                 (snd (front_back latest candidate)).

(** The processed pairs after the body ran on one candidate. *)
Definition next_set (candidate : File) (already_merged : gset (gset string))
  : gset (gset string) :=
  if attempts candidate already_merged then
    match merged candidate with
    | Ok _ => {[ pair_key folder latest candidate ]} ∪ already_merged
    | Raise _ => already_merged
    end
  else already_merged.

(** The folder after the body ran on one candidate. *)
Definition next_files (candidate : File)
    (already_merged : gset (gset string)) (entries : list File)
  : list File :=
  if attempts candidate already_merged then
    match merged candidate with
    | Ok out =>
        put_file
          (mkFile (output_name w now (fst (front_back latest candidate))
                                     (snd (front_back latest candidate)))
                  now (Some out))
          entries
    | Raise _ => entries
    end
  else entries.

(** The records of the body on one candidate: quiet ones, and, when the
    merge is reached, the pair that was detected and the failure of the
    merge if it failed. *)
Definition body_records (candidate : File)
    (already_merged : gset (gset string)) (rs : list LogRecord) : Prop :=
  let detected :=
    info_pair_detected (name (fst (front_back latest candidate)))
                       (name (snd (front_back latest candidate)))
                       (page_count latest) in
  Forall (fun r =>
            quiet r = true
            \/ attempts candidate already_merged = true
               /\ (r = detected
                   \/ exists e, merged candidate = Raise e
                                /\ r = error_merge_failed e)) rs
  /\ (attempts candidate already_merged = true ->
      In detected rs
      /\ forall e, merged candidate = Raise e ->
                   In (error_merge_failed e) rs).

Lemma pair_loop_break candidate rest already_merged s :
  st_mtime candidate < threshold ->
  pair_loop w now folder latest threshold (candidate :: rest)
            already_merged s
  = (Ok already_merged, s).
Proof. intros H. simpl. by apply Z.ltb_lt in H as ->. Qed.

Lemma pair_loop_step candidate rest already_merged :
  threshold <= st_mtime candidate ->
  exists rs,
    body_records candidate already_merged rs /\
    forall s,
      pair_loop w now folder latest threshold (candidate :: rest)
                already_merged s
      = pair_loop w now folder latest threshold rest
          (next_set candidate already_merged)
          (mkState (next_files candidate already_merged (files s))
                   (records s ++ rs)).
Proof.
  intros Hwin. apply Z.ltb_ge in Hwin.
  unfold body_records, next_set, next_files, attempts.
  destruct (get_pdf_page_count_logs latest) as (rl & Hl & Hql).
  destruct (get_pdf_page_count_logs candidate) as (rc & Hc & Hqc).
  destruct (decide (pair_key folder latest candidate ∈ already_merged))
    as [Hin|Hnin].
  { exists []. rewrite bool_decide_eq_false_2 by tauto. simpl.
    split; [split; [constructor|done]|].
    intros s. rewrite Hwin. destruct (decide _); [|done].
    by rewrite app_nil_r, state_eta. }
  rewrite bool_decide_eq_true_2 by done. simpl.
  unfold counts_match.
  destruct ((page_count latest <=? 0) || (page_count candidate <=? 0))
    eqn:Hpos; simpl.
  { exists (rl ++ rc). split.
    - split; [|done]. apply quiet_or. quiet_records.
    - intros s. rewrite Hwin. destruct (decide _); [done|].
      unfold bind at 1. rewrite Hl. unfold bind at 1. rewrite Hc.
      rewrite Hpos. run_monad. by rewrite <- app_assoc. }
  destruct (page_count latest =? page_count candidate) eqn:Heq; simpl;
    cycle 1.
  { exists (rl ++ rc ++ [debug_count_mismatch (name latest) (name candidate)
                           (page_count latest) (page_count candidate)]).
    split.
    - split; [|done]. apply quiet_or. quiet_records.
    - intros s. rewrite Hwin. destruct (decide _); [done|].
      unfold bind at 1. rewrite Hl. unfold bind at 1. rewrite Hc.
      rewrite Hpos, Heq. run_monad. by rewrite <- !app_assoc. }
  unfold merged.
  destruct (front_back latest candidate) as [front back] eqn:Hfb. simpl.
  destruct (merge_front_back_run w now front back
              (output_name w now front back)) as (rm & Hqm & Hm).
  destruct (merge_result w front back) as [out|e] eqn:Hres.
  - exists (rl ++ rc ++ [info_pair_detected (name front) (name back)
                           (page_count latest)] ++ rm).
    split.
    + split.
      * repeat (apply Forall_app; split); try by apply quiet_or.
        apply List.Forall_cons; [|constructor]. right. split; [done|by left].
      * intros _. split; [|done].
        rewrite !in_app_iff. right. right. left. by left.
    + intros s. rewrite Hwin. destruct (decide _); [done|].
      unfold bind at 1. rewrite Hl. unfold bind at 1. rewrite Hc.
      rewrite Hpos, Heq. run_monad.
      rewrite Hm. simpl. by rewrite <- !app_assoc.
  - exists (rl ++ rc ++ [info_pair_detected (name front) (name back)
                           (page_count latest)] ++ rm
               ++ [error_merge_failed e]).
    split.
    + split.
      * repeat (apply Forall_app; split); try by apply quiet_or.
        -- apply List.Forall_cons; [|constructor].
           right. split; [done|by left].
        -- apply List.Forall_cons; [|constructor].
           right. split; [done|]. right. by exists e.
      * intros _. split.
        -- rewrite !in_app_iff. right. right. left. by left.
        -- intros e' [= <-]. rewrite !in_app_iff.
           right. right. right. right. by left.
    + intros s. rewrite Hwin. destruct (decide _); [done|].
      unfold bind at 1. rewrite Hl. unfold bind at 1. rewrite Hc.
      rewrite Hpos, Heq. run_monad.
      rewrite Hm. simpl. by rewrite <- !app_assoc.
Qed.

(** The candidates the loop visits: those before the first one that is
    older than the threshold. *)
Fixpoint window (candidates : list File) : list File :=
  match candidates with
  | [] => []
  | c :: rest => if st_mtime c <? threshold then [] else c :: window rest
  end.

(** The processed pairs and the folder after the whole loop. *)
Fixpoint walk_set (candidates : list File)
    (already_merged : gset (gset string)) : gset (gset string) :=
  match candidates with
  | [] => already_merged
  | c :: rest =>
      if st_mtime c <? threshold then already_merged
      else walk_set rest (next_set c already_merged)
  end.

Fixpoint walk_files (candidates : list File)
    (already_merged : gset (gset string)) (entries : list File)
  : list File :=
  match candidates with
  | [] => entries
  | c :: rest =>
      if st_mtime c <? threshold then entries
      else walk_files rest (next_set c already_merged)
                      (next_files c already_merged entries)
  end.

Definition detected (c : File) : LogRecord :=
  info_pair_detected (name (fst (front_back latest c)))
                     (name (snd (front_back latest c)))
                     (page_count latest).

(** The records of the whole loop: a detected pair comes from a visited
    candidate whose counts match, a failure from a merge that failed, and
    a visited candidate with matching counts whose key is not in the final
    set was detected and its merge failed. *)
Definition walk_records (candidates : list File)
    (already_merged : gset (gset string)) (rs : list LogRecord) : Prop :=
  (forall fr bk n,
      In (info_pair_detected fr bk n) rs ->
      exists c, In c (window candidates) /\ counts_match c = true
                /\ info_pair_detected fr bk n = detected c)
  /\ (forall e,
        In (error_merge_failed e) rs ->
        exists c, In c (window candidates) /\ counts_match c = true
                  /\ merged c = Raise e)
  /\ (forall c,
        In c (window candidates) ->
        counts_match c = true ->
        pair_key folder latest c ∉ walk_set candidates already_merged ->
        In (detected c) rs
        /\ exists e, merged c = Raise e /\ In (error_merge_failed e) rs)
  /\ (forall c,
        In c (window candidates) ->
        counts_match c = true ->
        pair_key folder latest c ∉ already_merged ->
        exists c', In c' (window candidates)
                   /\ pair_key folder latest c' = pair_key folder latest c
                   /\ counts_match c' = true
                   /\ In (detected c') rs
                   /\ forall e, merged c' = Raise e ->
                                In (error_merge_failed e) rs).

Lemma next_set_mono c already_merged :
  already_merged ⊆ next_set c already_merged.
Proof.
  unfold next_set. destruct (attempts c already_merged); [|done].
  destruct (merged c); set_solver.
Qed.

Lemma next_set_new c already_merged k :
  k ∈ next_set c already_merged -> k ∉ already_merged ->
  attempts c already_merged = true /\ k = pair_key folder latest c.
Proof.
  unfold next_set. destruct (attempts c already_merged); [|done].
  destruct (merged c); [|done].
  intros [->%elem_of_singleton|?]%elem_of_union ?; done.
Qed.

Lemma walk_set_mono candidates :
  forall already_merged,
    already_merged ⊆ walk_set candidates already_merged.
Proof.
  induction candidates as [|c rest IH]; intros am; simpl; [done|].
  destruct (st_mtime c <? threshold); [done|].
  etrans; [apply next_set_mono|apply IH].
Qed.

Lemma pair_loop_walk candidates :
  forall already_merged,
  exists rs,
    walk_records candidates already_merged rs /\
    forall s,
      pair_loop w now folder latest threshold candidates already_merged s
      = (Ok (walk_set candidates already_merged),
         mkState (walk_files candidates already_merged (files s))
                 (records s ++ rs)).
Proof.
  induction candidates as [|c rest IH]; intros am.
  { exists []. split; [by repeat split|].
    intros s. simpl. unfold ret. by rewrite app_nil_r, state_eta. }
  destruct (Z.ltb_spec (st_mtime c) threshold) as [Hold|Hwin].
  { exists []. split.
    - unfold walk_records. simpl.
      apply Z.ltb_lt in Hold as ->. by repeat split.
    - intros s. rewrite pair_loop_break by done. simpl.
      apply Z.ltb_lt in Hold as ->. by rewrite app_nil_r, state_eta. }
  destruct (pair_loop_step c rest am Hwin) as (rc & [Hall Hatt] & Hstep).
  destruct (IH (next_set c am))
    as (rr & (Hdet & Herr & Hleft & Hfwd) & Hrest).
  exists (rc ++ rr). split.
  - unfold walk_records. simpl.
    rewrite (proj2 (Z.ltb_ge _ _) Hwin). split; [|split; [|split]].
    + intros fr bk n [Hin|Hin]%in_app_iff.
      * rewrite Forall_forall in Hall.
        apply list_elem_of_In, Hall in Hin
          as [Hq|[Ha [->|(e & _ & ?)]]]; [done| |done].
        exists c. split; [by left|].
        split; [|done]. by apply andb_prop in Ha as [_ ?].
      * destruct (Hdet fr bk n Hin) as (c' & ? & ? & ?).
        exists c'. split; [by right|done].
    + intros e [Hin|Hin]%in_app_iff.
      * rewrite Forall_forall in Hall.
        apply list_elem_of_In, Hall in Hin
          as [Hq|[Ha [?|(e' & He' & [= <-])]]]; [done|done|].
        exists c. split; [by left|].
        split; [|done]. by apply andb_prop in Ha as [_ ?].
      * destruct (Herr e Hin) as (c' & ? & ? & ?).
        exists c'. split; [by right|done].
    + intros c' [<-|Hin] Hcm Hkey.
      * assert (Ha : attempts c am = true).
        { unfold attempts. rewrite Hcm, andb_true_r.
          apply bool_decide_eq_true_2. intros Hk. apply Hkey.
          by apply walk_set_mono, next_set_mono. }
        destruct (Hatt Ha) as [Hd He]. split; [apply in_app_iff; by left|].
        destruct (merged c) as [out|e] eqn:Hm.
        -- exfalso. apply Hkey, walk_set_mono.
           unfold next_set. rewrite Ha, Hm.
           by apply elem_of_union_l, elem_of_singleton.
        -- exists e. split; [done|]. apply in_app_iff. left. by apply He.
      * destruct (Hleft c' Hin Hcm Hkey) as [Hd (e & ? & ?)].
        split; [apply in_app_iff; by right|].
        exists e. split; [done|]. apply in_app_iff. by right.
    + assert (Hhead : attempts c am = true ->
                      In (detected c) (rc ++ rr)
                      /\ forall e, merged c = Raise e ->
                                   In (error_merge_failed e) (rc ++ rr)).
      { intros Ha. destruct (Hatt Ha) as [Hd He].
        split; [apply in_app_iff; by left|].
        intros e Hm. apply in_app_iff. left. by apply He. }
      intros c' [<-|Hin] Hcm Hkey.
      * assert (Ha : attempts c am = true).
        { unfold attempts. rewrite Hcm, andb_true_r.
          by apply bool_decide_eq_true_2. }
        exists c. split; [by left|]. split; [done|].
        split; [done|by apply Hhead].
      * destruct (decide (pair_key folder latest c' ∈ next_set c am))
          as [Hnext|Hnext].
        -- destruct (next_set_new _ _ _ Hnext Hkey) as [Ha Hk].
           exists c. split; [by left|]. split; [done|].
           split; [by apply andb_prop in Ha as [_ ?]|by apply Hhead].
        -- destruct (Hfwd c' Hin Hcm Hnext) as (c0 & ? & ? & ? & ? & Hfail).
           exists c0. split; [by right|]. split; [done|]. split; [done|].
           split; [apply in_app_iff; by right|].
           intros e Hm. apply in_app_iff. right. by apply Hfail.
  - intros s. rewrite Hstep, Hrest. simpl.
    rewrite (proj2 (Z.ltb_ge _ _) Hwin). by rewrite <- app_assoc.
Qed.

(** The final set: what was there, and the keys of the visited candidates
    whose counts match and whose merge succeeds. *)
Lemma walk_set_spec candidates :
  forall already_merged k,
    k ∈ walk_set candidates already_merged <->
    k ∈ already_merged
    \/ exists c out, In c (window candidates) /\ counts_match c = true
                     /\ merged c = Ok out
                     /\ k = pair_key folder latest c.
Proof.
  induction candidates as [|c rest IH]; intros am k; simpl.
  { split; [by left|]. by intros [?|(? & ? & [] & _)]. }
  destruct (st_mtime c <? threshold).
  { split; [by left|]. by intros [?|(? & ? & [] & _)]. }
  rewrite IH. unfold next_set, attempts. split.
  - intros [Hk|(c' & out & ? & ? & ? & ?)].
    + destruct (bool_decide _ && counts_match c) eqn:Ha; [|by left].
      destruct (merged c) as [out|e] eqn:Hm; [|by left].
      apply elem_of_union in Hk as [->%elem_of_singleton|Hk]; [|by left].
      right. exists c, out. split; [by left|].
      by apply andb_prop in Ha as [_ ?].
    + right. exists c', out. split; [by right|done].
  - intros [Hk|(c' & out & [<-|Hin] & Hcm & Hm & ->)].
    + left. destruct (bool_decide _ && counts_match c); [|done].
      destruct (merged c); [by apply elem_of_union_r|done].
    + left. rewrite Hcm, andb_true_r, Hm.
      destruct (decide (pair_key folder latest c ∈ am)) as [Hin|Hnin].
      * by rewrite bool_decide_eq_false_2 by tauto.
      * rewrite bool_decide_eq_true_2 by done.
        by apply elem_of_union_l, elem_of_singleton.
    + right. by exists c', out.
Qed.

(** When every merge that would succeed is already recorded, the loop
    changes neither the set nor the folder. *)
Lemma walk_idle candidates :
  forall already_merged entries,
    (forall c out, In c (window candidates) -> counts_match c = true ->
                   merged c = Ok out ->
                   pair_key folder latest c ∈ already_merged) ->
    walk_set candidates already_merged = already_merged
    /\ walk_files candidates already_merged entries = entries.
Proof.
  induction candidates as [|c rest IH]; intros am entries Hdone; simpl.
  { done. }
  simpl in Hdone. destruct (st_mtime c <? threshold); [done|].
  assert (Hset : next_set c am = am
                 /\ next_files c am entries = entries).
  { unfold next_set, next_files, attempts.
    destruct (counts_match c) eqn:Hcm;
      [|by rewrite andb_false_r].
    destruct (merged c) as [out|e] eqn:Hm.
    - rewrite bool_decide_eq_false_2; [done|].
      intros Hn. apply Hn. apply (Hdone c out); [by left|done..].
    - by destruct (bool_decide _ && true). }
  destruct Hset as [-> ->]. apply IH.
  intros c' out ? ? ?. apply (Hdone c' out); [by right|done..].
Qed.

End Walk.

(** *** The candidate list *)

Lemma insert_desc_perm f l : Permutation (insert_desc f l) (f :: l).
Proof.
  induction l as [|g l IH]; simpl; [done|].
  destruct (st_mtime g <=? st_mtime f); [done|].
  rewrite IH. apply perm_swap.
Qed.

Lemma sorted_desc_perm l : Permutation (sorted_desc l) l.
Proof.
  induction l as [|f l IH]; simpl; [done|].
  rewrite insert_desc_perm. by constructor.
Qed.

Definition newer_first (a b : File) : Prop := st_mtime b <= st_mtime a.

Lemma insert_desc_sorted f l :
  StronglySorted newer_first l -> StronglySorted newer_first (insert_desc f l).
Proof.
  induction 1 as [|g l Hs IH Hall]; simpl.
  - by repeat constructor.
  - destruct (Z.leb_spec (st_mtime g) (st_mtime f)) as [Hle|Hgt].
    + constructor; [by constructor|].
      constructor; [done|].
      eapply Forall_impl; [exact Hall|]. unfold newer_first. intros; lia.
    + constructor; [done|].
      rewrite (insert_desc_perm f l).
      constructor; [unfold newer_first; lia|done].
Qed.

Lemma sorted_desc_sorted l : StronglySorted newer_first (sorted_desc l).
Proof.
  induction l as [|f l IH]; simpl; [constructor|].
  by apply insert_desc_sorted.
Qed.

Lemma list_pdf_files_in entries f :
  In f (list_pdf_files entries) <->
  In f entries /\ PyStr.endswith ".pdf" (name f) = true /\ eligible f = true.
Proof.
  unfold list_pdf_files, glob_pdf.
  rewrite <- !list_elem_of_In, (sorted_desc_perm _), !list_elem_of_In.
  rewrite !filter_In. tauto.
Qed.

Lemma list_pdf_files_sorted entries :
  StronglySorted newer_first (list_pdf_files entries).
Proof. apply sorted_desc_sorted. Qed.

Lemma NoDup_names_filter (p : File -> bool) l :
  List.NoDup (map name l) -> List.NoDup (map name (List.filter p l)).
Proof.
  induction l as [|f l IH]; simpl; [done|].
  intros Hnd. apply List.NoDup_cons_iff in Hnd as [Hnin Hnd].
  destruct (p f); simpl; [|by apply IH].
  apply List.NoDup_cons; [|by apply IH].
  intros Hin. apply Hnin.
  apply in_map_iff in Hin as (g & Hg & Hin).
  apply filter_In in Hin as [Hin _].
  apply in_map_iff. by exists g.
Qed.

Lemma list_pdf_files_NoDup entries :
  List.NoDup (map name entries) ->
  List.NoDup (map name (list_pdf_files entries)).
Proof.
  intros Hnd. unfold list_pdf_files, glob_pdf.
  eapply Permutation_NoDup.
  - apply Permutation_map. symmetry. apply sorted_desc_perm.
  - by do 2 apply NoDup_names_filter.
Qed.

(** Two entries of a list without repeated names that have the same name
    are the same entry. *)
Lemma same_name l (a b : File) :
  List.NoDup (map name l) -> In a l -> In b l -> name a = name b -> a = b.
Proof.
  induction l as [|f l IH]; simpl; [done|].
  intros Hnd. apply List.NoDup_cons_iff in Hnd as [Hnin Hnd].
  intros [->|Ha] [->|Hb] Hn; [done| | |by apply IH].
  - exfalso. apply Hnin. rewrite Hn. by apply in_map.
  - exfalso. apply Hnin. rewrite <- Hn. by apply in_map.
Qed.

(** A file written under a name with the merged prefix changes nothing for
    the candidate list. *)
Lemma put_file_candidates (f : File) (l : list File) :
  PyStr.startswith MERGED_PREFIX (name f) = true ->
  list_pdf_files (put_file f l) = list_pdf_files l.
Proof.
  intros Hpre. unfold list_pdf_files. f_equal.
  assert (Hf : eligible f = false).
  { unfold eligible. rewrite Hpre. by rewrite andb_false_r. }
  induction l as [|g l IH]; simpl.
  - destruct (PyStr.endswith ".pdf" (name f)); simpl; [by rewrite Hf|done].
  - destruct (String.eqb (name g) (name f)) eqn:E; simpl.
    + apply String.eqb_eq in E.
      assert (Hg : eligible g = false).
      { unfold eligible. rewrite E, Hpre. by rewrite andb_false_r. }
      rewrite E.
      destruct (PyStr.endswith ".pdf" (name f)); simpl; [|done].
      by rewrite Hf, Hg.
    + destruct (PyStr.endswith ".pdf" (name g)); simpl; [|done].
      destruct (eligible g); by rewrite IH.
Qed.

Lemma startswith_app (pre s : string) :
  PyStr.startswith pre (pre +:+ s) = true.
Proof.
  unfold PyStr.startswith. induction pre as [|a pre IH]; simpl.
  - by destruct s.
  - by destruct (ascii_dec a a).
Qed.

Lemma output_name_merged (w : World) (now : Z) (front back : File) :
  PyStr.startswith MERGED_PREFIX (output_name w now front back) = true.
Proof. apply startswith_app. Qed.

Lemma next_files_candidates w now folder latest c am entries :
  list_pdf_files (next_files w now folder latest c am entries)
  = list_pdf_files entries.
Proof.
  unfold next_files. destruct (attempts folder latest c am); [|done].
  destruct (merged w latest c); [|done].
  apply put_file_candidates, output_name_merged.
Qed.

Lemma walk_files_candidates w now folder latest threshold candidates :
  forall am entries,
    list_pdf_files (walk_files w now folder latest threshold candidates
                               am entries)
    = list_pdf_files entries.
Proof.
  induction candidates as [|c rest IH]; intros am entries; simpl; [done|].
  destruct (st_mtime c <? threshold); [done|].
  by rewrite IH, next_files_candidates.
Qed.

(** *** One call of the pair finder *)

(** The files the call works on: [latest] and the candidates after it, when
    there are at least two PDF files and [latest] is recent enough. *)
Definition scan (now : Z) (entries : list File) : option (File * list File) :=
  match list_pdf_files entries with
  | latest :: c :: rest =>
      if now - st_mtime latest >? timedelta RECENT_FILE_WINDOW_SECONDS
      then None
      else Some (latest, c :: rest)
  | _ => None
  end.

Definition pair_threshold (latest : File) : Z :=
  st_mtime latest - timedelta PAIR_WINDOW_SECONDS.

Lemma find_and_merge_pairs_idle w now folder am s :
  scan now (files s) = None ->
  find_and_merge_pairs w now folder am s = (Ok am, s).
Proof.
  unfold scan, find_and_merge_pairs, get_files. run_monad.
  destruct (list_pdf_files (files s)) as [|latest [|c rest]]; simpl;
    [done..|].
  by destruct (now - st_mtime latest >? _).
Qed.

Lemma find_and_merge_pairs_scan w now folder am s latest candidates :
  scan now (files s) = Some (latest, candidates) ->
  find_and_merge_pairs w now folder am s
  = pair_loop w now folder latest (pair_threshold latest) candidates am s.
Proof.
  unfold scan, find_and_merge_pairs, get_files. run_monad.
  destruct (list_pdf_files (files s)) as [|latest' [|c rest]]; simpl;
    [done..|].
  destruct (now - st_mtime latest' >? _); [done|].
  by intros [= -> <-].
Qed.

(** The call never raises; what it returns, writes and logs is what the walk
    over the candidates of [scan] says. *)
Lemma find_and_merge_pairs_run w now folder am s :
  exists am' fs' rs,
    find_and_merge_pairs w now folder am s
      = (Ok am', mkState fs' (records s ++ rs)) /\
    list_pdf_files fs' = list_pdf_files (files s) /\
    match scan now (files s) with
    | None => am' = am /\ fs' = files s /\ rs = []
    | Some (latest, candidates) =>
        am' = walk_set w folder latest (pair_threshold latest) candidates am
        /\ fs' = walk_files w now folder latest (pair_threshold latest)
                            candidates am (files s)
        /\ walk_records w folder latest (pair_threshold latest)
                        candidates am rs
    end.
Proof.
  destruct (scan now (files s)) as [[latest candidates]|] eqn:Hscan.
  - destruct (pair_loop_walk w now folder latest (pair_threshold latest)
                candidates am) as (rs & Hrs & Hrun).
    eexists _, _, rs. split; [|split; [|done]].
    + rewrite (find_and_merge_pairs_scan _ _ _ _ _ _ _ Hscan). apply Hrun.
    + apply walk_files_candidates.
  - exists am, (files s), []. split; [|done].
    rewrite find_and_merge_pairs_idle by done.
    by rewrite app_nil_r, state_eta.
Qed.

Lemma scan_later now1 now2 entries :
  now1 <= now2 -> scan now1 entries = None -> scan now2 entries = None.
Proof.
  unfold scan. intros Hle.
  destruct (list_pdf_files entries) as [|latest [|c rest]]; [done..|].
  destruct (Z.gtb_spec (now1 - st_mtime latest)
              (timedelta RECENT_FILE_WINDOW_SECONDS)); [|done].
  intros _.
  destruct (Z.gtb_spec (now2 - st_mtime latest)
              (timedelta RECENT_FILE_WINDOW_SECONDS)); [done|lia].
Qed.

Lemma scan_same now entries entries' :
  list_pdf_files entries' = list_pdf_files entries ->
  scan now entries' = scan now entries.
Proof. unfold scan. by intros ->. Qed.

Lemma scan_candidates now1 now2 entries latest candidates :
  scan now1 entries = Some (latest, candidates) ->
  scan now2 entries = None \/ scan now2 entries = Some (latest, candidates).
Proof.
  unfold scan.
  destruct (list_pdf_files entries) as [|latest' [|c rest]]; [done..|].
  destruct (now1 - st_mtime latest' >? _); [done|]. intros [= -> <-].
  destruct (now2 - st_mtime latest >? _); auto.
Qed.

(** C3.  Two calls in succession (the clock does not go back), the second
    on the folder as the first left it and with the set the first returned:
    both return normally, the second writes no file (the folder is the one
    it found) and returns the very set it was given, hence one of the same
    size. *)
Theorem find_and_merge_pairs_idempotent (w : World) (folder : string)
    (now1 now2 : Z) (already_merged : gset (gset string)) (s : State) :
  now1 <= now2 ->
  exists am1 s1 am2 s2,
    find_and_merge_pairs w now1 folder already_merged s = (Ok am1, s1) /\
    find_and_merge_pairs w now2 folder am1 s1 = (Ok am2, s2) /\
    files s2 = files s1 /\
    size am2 = size am1 /\
    am2 = am1.
Proof.
  intros Hle.
  destruct (find_and_merge_pairs_run w now1 folder already_merged s)
    as (am1 & fs1 & rs1 & Hrun1 & Hcand & H1).
  set (s1 := mkState fs1 (records s ++ rs1)) in *.
  destruct (find_and_merge_pairs_run w now2 folder am1 s1)
    as (am2 & fs2 & rs2 & Hrun2 & _ & H2).
  exists am1, s1, am2, (mkState fs2 (records s1 ++ rs2)).
  split; [done|]. split; [done|]. simpl.
  assert (Hscan : scan now2 fs1 = scan now2 (files s))
    by by apply scan_same.
  simpl in H2. rewrite Hscan in H2.
  destruct (scan now1 (files s)) as [[latest candidates]|] eqn:Hscan1.
  - destruct H1 as (Ham1 & _ & _).
    destruct (scan_candidates _ now2 _ _ _ Hscan1) as [Hnone|Hsome].
    + rewrite Hnone in H2. by destruct H2 as (-> & -> & _).
    + rewrite Hsome in H2. destruct H2 as (Ham2 & Hfs2 & _).
      destruct (walk_idle w now2 folder latest (pair_threshold latest)
                  candidates am1 fs1) as [Hset Hfiles].
      { intros c out Hin Hcm Hm. rewrite Ham1.
        apply walk_set_spec. right. by exists c, out. }
      rewrite Hset in Ham2. rewrite Hfiles in Hfs2. by subst.
  - rewrite (scan_later now1 now2 _ Hle Hscan1) in H2.
    by destruct H2 as (-> & -> & _).
Qed.

(** *** Facts about the window, the keys and the assignment *)

Lemma window_in threshold candidates c :
  In c (window threshold candidates) ->
  In c candidates /\ threshold <= st_mtime c.
Proof.
  induction candidates as [|x l IH]; simpl; [done|].
  destruct (Z.ltb_spec (st_mtime x) threshold); [done|].
  intros [<-|Hin]; [split; [by left|done]|].
  destruct (IH Hin). split; [by right|done].
Qed.

Lemma window_sorted threshold candidates c :
  StronglySorted newer_first candidates ->
  In c candidates -> threshold <= st_mtime c ->
  In c (window threshold candidates).
Proof.
  induction 1 as [|x l Hs IH Hall]; simpl; [done|].
  intros Hin Hc.
  assert (Hx : threshold <= st_mtime x).
  { destruct Hin as [->|Hin]; [done|].
    rewrite Forall_forall in Hall.
    apply list_elem_of_In, Hall in Hin. unfold newer_first in Hin. lia. }
  rewrite (proj2 (Z.ltb_ge _ _) Hx).
  destruct Hin as [->|Hin]; [by left|]. right. by apply IH.
Qed.

Lemma window_stops threshold pre c post :
  st_mtime c < threshold ->
  window threshold (pre ++ c :: post) = window threshold pre.
Proof.
  intros Hold. induction pre as [|x pre IH]; simpl.
  - by apply Z.ltb_lt in Hold as ->.
  - destruct (st_mtime x <? threshold); [done|]. by rewrite IH.
Qed.


Lemma scan_Some now entries latest candidates :
  scan now entries = Some (latest, candidates) ->
  list_pdf_files entries = latest :: candidates.
Proof.
  unfold scan.
  destruct (list_pdf_files entries) as [|l [|c rest]]; [done..|].
  destruct (now - st_mtime l >? _); [done|]. by intros [= -> <-].
Qed.

Lemma front_back_cases latest c :
  front_back latest c = (c, latest) \/ front_back latest c = (latest, c).
Proof. unfold front_back. destruct (st_mtime c <? st_mtime latest); auto. Qed.


Lemma str_path_inj folder a b :
  str_path folder a = str_path folder b -> name a = name b.
Proof.
  unfold str_path. intros H.
  apply (String.app_inj folder) in H. by apply (String.app_inj "/") in H.
Qed.

Lemma in_pair_key folder latest c f :
  str_path folder f ∈ pair_key folder latest c ->
  name f = name latest \/ name f = name c.
Proof.
  unfold pair_key.
  intros [H%elem_of_singleton|H%elem_of_singleton]%elem_of_union;
    apply str_path_inj in H; auto.
Qed.

Lemma pair_key_same folder latest c c' :
  pair_key folder latest c' = pair_key folder latest c ->
  name c = name latest \/ name c = name c'.
Proof.
  intros Hk. apply (in_pair_key folder latest c').
  rewrite Hk. unfold pair_key. set_solver.
Qed.

(** Being eligible is a matter of the name alone. *)
Lemma eligible_name a b : name a = name b -> eligible a = eligible b.
Proof. unfold eligible. by intros ->. Qed.

Lemma not_eligible f :
  PyStr.startswith "." (name f) = true
  \/ PyStr.startswith MERGED_PREFIX (name f) = true ->
  eligible f = false.
Proof.
  unfold eligible. intros [->| ->]; [done|]. by rewrite andb_false_r.
Qed.

(** The names a detected pair carries. *)
Lemma detected_names latest c fr bk n :
  info_pair_detected fr bk n = detected latest c ->
  fr = name (fst (front_back latest c))
  /\ bk = name (snd (front_back latest c))
  /\ n = page_count latest.
Proof. unfold detected. by intros [= -> -> ->]. Qed.

(** *** The test scenarios of the pair finder *)

Example scenario_pair_is_merged :
  files (snd (find_and_merge_pairs Scenario.tools (Scenario.sec 1010)
                Scenario.scans ∅
                (Scenario.start [Scenario.older; Scenario.newer])))
  = [Scenario.older; Scenario.newer;
     mkFile "merged_20240101_120000_older_and_newer.pdf" (Scenario.sec 1010)
            (Some [mkPage 0 0; mkPage 45 0; mkPage 90 90; mkPage 180 180])].
Proof. vm_compute. reflexivity. Qed.

Example scenario_single_file :
  find_and_merge_pairs Scenario.tools (Scenario.sec 1010) Scenario.scans ∅
    (Scenario.start [Scenario.newer])
  = (Ok ∅, Scenario.start [Scenario.newer]).
Proof. reflexivity. Qed.

Example scenario_outside_window :
  find_and_merge_pairs Scenario.tools (Scenario.sec 1010) Scenario.scans ∅
    (Scenario.start [Scenario.aged; Scenario.newer])
  = (Ok ∅, Scenario.start [Scenario.aged; Scenario.newer]).
Proof. reflexivity. Qed.

(** ** The properties of the pair finder *)

(** C4.  A file whose name starts with [.] or with [merged_] is not in the
    candidate list, whatever its time stamp and its pages; no pair that a
    call detects has it as front or back, and no key that a call adds to
    the processed pairs holds its path. *)
Theorem hidden_and_merged_never_paired (w : World) (now : Z) (folder : string)
    (already_merged : gset (gset string)) (s : State) (f : File) :
  PyStr.startswith "." (name f) = true
  \/ PyStr.startswith MERGED_PREFIX (name f) = true ->
  ~ In f (list_pdf_files (files s)) /\
  exists am' fs' rs,
    find_and_merge_pairs w now folder already_merged s
      = (Ok am', mkState fs' (records s ++ rs)) /\
    (forall fr bk n,
        In (info_pair_detected fr bk n) rs ->
        fr <> name f /\ bk <> name f) /\
    (forall k, k ∈ am' -> k ∉ already_merged -> str_path folder f ∉ k).
Proof.
  intros Hpre. pose proof (not_eligible f Hpre) as Hf. split.
  { intros (_ & _ & He)%list_pdf_files_in. congruence. }
  destruct (find_and_merge_pairs_run w now folder already_merged s)
    as (am' & fs' & rs & Hrun & _ & H).
  exists am', fs', rs. split; [done|].
  destruct (scan now (files s)) as [[latest cands]|] eqn:Hscan.
  - destruct H as (-> & _ & (Hdet & _)).
    pose proof (scan_Some _ _ _ _ Hscan) as Hl.
    assert (Helig : forall g, In g (latest :: cands) -> name g <> name f).
    { intros g Hg Hn. rewrite <- Hl in Hg.
      apply list_pdf_files_in in Hg as (_ & _ & He).
      rewrite (eligible_name _ _ Hn) in He. congruence. }
    split.
    + intros fr bk n Hin.
      destruct (Hdet _ _ _ Hin) as (c & [Hc _]%window_in & _ & Hev).
      apply detected_names in Hev as (-> & -> & _).
      destruct (front_back_cases latest c) as [-> | ->]; simpl;
        split; apply Helig; simpl; auto.
    + intros k Hk Hnk Hin.
      apply walk_set_spec in Hk
        as [?|(c & out & [Hc _]%window_in & _ & _ & ->)]; [done|].
      apply in_pair_key in Hin as [Hn|Hn]; symmetry in Hn; revert Hn;
        apply Helig; simpl; auto.
  - destruct H as (-> & _ & ->). split; [by intros ? ? ? []|done].
Qed.

Lemma hidden_and_merged_never_paired_witness :
  (~ In Scenario.hidden
        (list_pdf_files
           [Scenario.older; Scenario.hidden; Scenario.earlier_output;
            Scenario.newer]) /\
   exists am' fs' rs,
     find_and_merge_pairs Scenario.tools (Scenario.sec 1010) Scenario.scans ∅
       (Scenario.start [Scenario.older; Scenario.hidden;
                        Scenario.earlier_output; Scenario.newer])
       = (Ok am', mkState fs' ([] ++ rs)) /\
     (forall fr bk n,
         In (info_pair_detected fr bk n) rs ->
         fr <> "._scan.pdf" /\ bk <> "._scan.pdf") /\
     (forall k, k ∈ am' -> k ∉ (∅ : gset (gset string)) ->
                str_path Scenario.scans Scenario.hidden ∉ k))
  /\ ~ In Scenario.earlier_output
          (list_pdf_files
             [Scenario.older; Scenario.hidden; Scenario.earlier_output;
              Scenario.newer]).
Proof.
  split.
  - apply (hidden_and_merged_never_paired Scenario.tools (Scenario.sec 1010)
             Scenario.scans ∅
             (Scenario.start [Scenario.older; Scenario.hidden;
                              Scenario.earlier_output; Scenario.newer])
             Scenario.hidden).
    left. reflexivity.
  - apply (hidden_and_merged_never_paired Scenario.tools (Scenario.sec 1010)
             Scenario.scans ∅
             (Scenario.start [Scenario.older; Scenario.hidden;
                              Scenario.earlier_output; Scenario.newer])
             Scenario.earlier_output).
    right. reflexivity.
Defined.

Lemma find_and_merge_pairs_idempotent_witness :
  exists am1 s1 am2 s2,
    find_and_merge_pairs Scenario.tools (Scenario.sec 1010) Scenario.scans ∅
      (Scenario.start [Scenario.older; Scenario.newer]) = (Ok am1, s1) /\
    find_and_merge_pairs Scenario.tools (Scenario.sec 1070) Scenario.scans
      am1 s1 = (Ok am2, s2) /\
    files s2 = files s1 /\
    size am2 = size am1 /\
    am2 = am1.
Proof.
  apply (find_and_merge_pairs_idempotent Scenario.tools Scenario.scans
           (Scenario.sec 1010) (Scenario.sec 1070) ∅
           (Scenario.start [Scenario.older; Scenario.newer])).
  unfold Scenario.sec. lia.
Defined.

Lemma name_not_latest latest rest c :
  List.NoDup (map name (latest :: rest)) -> In c rest ->
  name c <> name latest.
Proof.
  simpl. intros [Hnin _]%List.NoDup_cons_iff Hin Hn.
  apply Hnin. rewrite <- Hn. by apply in_map.
Qed.

(** Among candidates with distinct names the key tells the candidate. *)
Lemma key_identifies folder latest rest c c' :
  List.NoDup (map name (latest :: rest)) -> In c rest -> In c' rest ->
  pair_key folder latest c' = pair_key folder latest c -> c' = c.
Proof.
  intros Hnd Hc Hc' Hk.
  apply pair_key_same in Hk as [Hn|Hn].
  - by apply name_not_latest with (rest := rest) in Hn.
  - symmetry. apply (same_name (latest :: rest)); simpl; auto.
Qed.

Lemma timedelta_pair_window : 0 <= timedelta PAIR_WINDOW_SECONDS.
Proof. unfold timedelta, PAIR_WINDOW_SECONDS. lia. Qed.




Example older_is_front_either_way :
  front_back Scenario.newer Scenario.older = (Scenario.older, Scenario.newer)
  /\ front_back Scenario.older Scenario.newer
     = (Scenario.older, Scenario.newer).
Proof. split; reflexivity. Qed.

(** The outcome of [merge_front_back] on the pair of a candidate is what
    [merged] says, whatever the state it starts from. *)
Lemma merge_outcome w now latest c s :
  fst (merge_front_back w now (fst (front_back latest c))
         (snd (front_back latest c))
         (output_name w now (fst (front_back latest c))
                            (snd (front_back latest c))) s)
  = match merged w latest c with
    | Ok _ => Ok tt
    | Raise e => Raise e
    end.
Proof.
  destruct (merge_front_back_run w now (fst (front_back latest c))
              (snd (front_back latest c))
              (output_name w now (fst (front_back latest c))
                                 (snd (front_back latest c))))
    as (rs & _ & H).
  rewrite H. unfold merged.
  by destruct (merge_result _ _ _).
Qed.

(** C9.  For a candidate inside the window whose page counts match those
    of [latest] and whose key is not yet in the processed pairs, the call
    returns normally, detects the pair, and the key is in the returned set
    exactly when [merge_front_back] succeeded on it.  When the merge raised
    [e], that failure is in the log, the key is not in the returned set,
    and every later call that still finds [latest] recent detects the pair
    again. *)
Theorem marked_iff_merge_succeeds (w : World) (now : Z) (folder : string)
    (already_merged : gset (gset string)) (s : State)
    (latest : File) (rest : list File) (c : File) :
  List.NoDup (map name (files s)) ->
  scan now (files s) = Some (latest, rest) ->
  In c rest ->
  pair_threshold latest <= st_mtime c ->
  counts_match latest c = true ->
  pair_key folder latest c ∉ already_merged ->
  let front := fst (front_back latest c) in
  let back := snd (front_back latest c) in
  let outcome :=
    fst (merge_front_back w now front back (output_name w now front back) s)
  in
  exists am' fs' rs,
    find_and_merge_pairs w now folder already_merged s
      = (Ok am', mkState fs' (records s ++ rs)) /\
    already_merged ⊆ am' /\
    In (info_pair_detected (name front) (name back) (page_count latest)) rs /\
    (pair_key folder latest c ∈ am' <-> outcome = Ok tt) /\
    (forall e,
        outcome = Raise e ->
        In (error_merge_failed e) rs /\
        (pair_key folder latest c ∉ am') /\
        (forall now2,
            scan now2 (files s) <> None ->
            exists am2 fs2 rs2,
              find_and_merge_pairs w now2 folder am'
                (mkState fs' (records s ++ rs))
                = (Ok am2, mkState fs2 ((records s ++ rs) ++ rs2)) /\
              In (info_pair_detected (name front) (name back)
                                     (page_count latest)) rs2)).
Proof.
  intros Hnd Hscan Hc Hwin Hcm Hnew front back outcome.
  assert (Hout : outcome = match merged w latest c with
                           | Ok _ => Ok tt
                           | Raise e => Raise e
                           end) by apply merge_outcome.
  pose proof (scan_Some _ _ _ _ Hscan) as Hl.
  apply list_pdf_files_NoDup in Hnd. rewrite Hl in Hnd.
  assert (Hsorted : StronglySorted newer_first rest).
  { pose proof (list_pdf_files_sorted (files s)) as Hs.
    rewrite Hl in Hs. by apply StronglySorted_inv in Hs as [? _]. }
  assert (Hin : In c (window (pair_threshold latest) rest))
    by by apply window_sorted.
  destruct (find_and_merge_pairs_run w now folder already_merged s)
    as (am' & fs' & rs & Hrun & Hcand & H).
  rewrite Hscan in H. destruct H as (Ham' & Hfs' & (_ & _ & _ & Hfwd)).
  exists am', fs', rs. split; [done|].
  split; [rewrite Ham'; apply walk_set_mono|].
  destruct (Hfwd c Hin Hcm Hnew) as (c' & [Hc' _]%window_in & Hk & _ & Hd & Hf).
  apply (key_identifies _ _ rest) in Hk; [subst c'|done..].
  split; [exact Hd|].
  assert (Hiff : pair_key folder latest c ∈ am'
                 <-> exists out, merged w latest c = Ok out).
  { rewrite Ham', walk_set_spec. split.
    - intros [?|(c' & out & [Hc2 _]%window_in & _ & Hm & Hk)]; [done|].
      apply (key_identifies _ _ rest) in Hk; [subst c'|done..]. by exists out.
    - intros [out Hm]. right. by exists c, out. }
  split.
  { rewrite Hiff, Hout. destruct (merged w latest c) as [out|e].
    - split; [done|]. intros _. by exists out.
    - split; [by intros [? ?]|done]. }
  intros e He. rewrite Hout in He.
  destruct (merged w latest c) as [out|e'] eqn:Hm; [done|].
  injection He as ->.
  split; [by apply Hf|].
  assert (Hleft : pair_key folder latest c ∉ am').
  { rewrite Hiff. by intros [? ?]. }
  split; [done|].
  intros now2 Hscan2.
  destruct (find_and_merge_pairs_run w now2 folder am'
              (mkState fs' (records s ++ rs)))
    as (am2 & fs2 & rs2 & Hrun2 & _ & H2).
  exists am2, fs2, rs2. split; [done|]. simpl in H2.
  rewrite (scan_same now2 (files s) fs' Hcand) in H2.
  destruct (scan_candidates _ now2 _ _ _ Hscan) as [Hnone|Hsome]; [done|].
  rewrite Hsome in H2. destruct H2 as (_ & _ & (_ & _ & _ & Hfwd2)).
  destruct (Hfwd2 c Hin Hcm Hleft)
    as (c' & [Hc2 _]%window_in & Hk & _ & Hd2 & _).
  apply (key_identifies _ _ rest) in Hk; [subst c'|done..].
  exact Hd2.
Qed.

(** C10.  When a candidate has exactly the time stamp of [latest], the
    assignment makes [latest] the front and the candidate the back: a
    detected pair that names the candidate has [latest] as front, and the
    pair is detected that way whenever the loop reaches its merge. *)
Theorem tie_makes_latest_front (w : World) (now : Z) (folder : string)
    (already_merged : gset (gset string)) (s : State)
    (latest : File) (rest : list File) (c : File) :
  List.NoDup (map name (files s)) ->
  list_pdf_files (files s) = latest :: rest ->
  In c rest ->
  st_mtime c = st_mtime latest ->
  front_back latest c = (latest, c) /\
  exists am' fs' rs,
    find_and_merge_pairs w now folder already_merged s
      = (Ok am', mkState fs' (records s ++ rs)) /\
    (forall fr bk n,
        In (info_pair_detected fr bk n) rs ->
        fr = name c \/ bk = name c ->
        fr = name latest /\ bk = name c) /\
    (scan now (files s) <> None ->
     counts_match latest c = true ->
     pair_key folder latest c ∉ already_merged ->
     In (info_pair_detected (name latest) (name c) (page_count latest)) rs).
Proof.
  intros Hnd Hl Hc Htie.
  assert (Hfb : front_back latest c = (latest, c)).
  { unfold front_back. by destruct (Z.ltb_spec (st_mtime c) (st_mtime latest));
      [lia|]. }
  split; [done|].
  apply list_pdf_files_NoDup in Hnd. rewrite Hl in Hnd.
  pose proof (name_not_latest _ _ _ Hnd Hc) as Hne.
  destruct (find_and_merge_pairs_run w now folder already_merged s)
    as (am' & fs' & rs & Hrun & _ & H).
  exists am', fs', rs. split; [done|].
  destruct (scan now (files s)) as [[latest' cands]|] eqn:Hscan.
  - apply scan_Some in Hscan. rewrite Hl in Hscan.
    injection Hscan as <- <-.
    destruct H as (_ & _ & (Hdet & _ & _ & Hfwd)). split.
    + intros fr bk n Hin Hnames.
      destruct (Hdet _ _ _ Hin) as (c' & [Hc' _]%window_in & _ & Hev).
      apply detected_names in Hev as (-> & -> & _).
      assert (Hsame : name c' = name c -> c' = c).
      { intros Hn. apply (same_name (latest :: rest)); simpl; auto. }
      unfold front_back in *.
      destruct (Z.ltb_spec (st_mtime c') (st_mtime latest)) as [Hlt|Hge];
        simpl in *.
      * destruct Hnames as [Hn|Hn]; [|by symmetry in Hn].
        apply Hsame in Hn. subst c'. lia.
      * destruct Hnames as [Hn|Hn]; [by symmetry in Hn|].
        by rewrite (Hsame Hn).
    + intros _ Hcm Hnew.
      assert (Hsorted : StronglySorted newer_first rest).
      { pose proof (list_pdf_files_sorted (files s)) as Hs.
        rewrite Hl in Hs. by apply StronglySorted_inv in Hs as [? _]. }
      assert (Hin : In c (window (pair_threshold latest) rest)).
      { apply window_sorted; [done..|].
        pose proof timedelta_pair_window. unfold pair_threshold. lia. }
      destruct (Hfwd c Hin Hcm Hnew)
        as (c' & [Hc' _]%window_in & Hk & _ & Hd & _).
      apply (key_identifies _ _ rest) in Hk; [subst c'|done..].
      unfold detected in Hd. by rewrite Hfb in Hd.
  - destruct H as (_ & _ & ->). split; [by intros ? ? ? []|done].
Qed.

Lemma marked_iff_merge_succeeds_witness :
  (exists am',
      fst (find_and_merge_pairs Scenario.tools (Scenario.sec 1010)
             Scenario.scans ∅
             (Scenario.start [Scenario.older; Scenario.newer])) = Ok am'
      /\ pair_key Scenario.scans Scenario.newer Scenario.older ∈ am')
  /\ (exists am' rs,
         find_and_merge_pairs Scenario.one_image (Scenario.sec 1010)
           Scenario.scans ∅
           (Scenario.start [Scenario.older; Scenario.newer])
         = (Ok am',
            mkState [Scenario.older; Scenario.newer] ([] ++ rs))
         /\ In (error_merge_failed (ValueError (mismatch_message 1 2))) rs
         /\ pair_key Scenario.scans Scenario.newer Scenario.older ∉ am').
Proof.
  split.
  - destruct (marked_iff_merge_succeeds Scenario.tools (Scenario.sec 1010)
                Scenario.scans ∅
                (Scenario.start [Scenario.older; Scenario.newer])
                Scenario.newer [Scenario.older] Scenario.older)
      as (am' & fs' & rs & Hrun & _ & _ & Hiff & _).
    + apply NoDup_ListNoDup, (bool_decide_unpack _). vm_compute. exact I.
    + reflexivity.
    + simpl. auto.
    + vm_compute. intros H. discriminate H.
    + reflexivity.
    + apply not_elem_of_empty.
    + exists am'. split; [by rewrite Hrun|]. apply Hiff. reflexivity.
  - destruct (marked_iff_merge_succeeds Scenario.one_image
                (Scenario.sec 1010) Scenario.scans ∅
                (Scenario.start [Scenario.older; Scenario.newer])
                Scenario.newer [Scenario.older] Scenario.older)
      as (am' & fs' & rs & Hrun & _ & _ & _ & Hfail).
    + apply NoDup_ListNoDup, (bool_decide_unpack _). vm_compute. exact I.
    + reflexivity.
    + simpl. auto.
    + vm_compute. intros H. discriminate H.
    + reflexivity.
    + apply not_elem_of_empty.
    + destruct (Hfail (ValueError (mismatch_message 1 2)))
        as (Hlog & Hleft & _); [reflexivity|].
      exists am', rs. split; [|by split].
      rewrite Hrun. f_equal. f_equal.
      assert (Hfs : files (snd (find_and_merge_pairs Scenario.one_image
                      (Scenario.sec 1010) Scenario.scans ∅
                      (Scenario.start [Scenario.older; Scenario.newer])))
                    = [Scenario.older; Scenario.newer])
        by (vm_compute; reflexivity).
      by rewrite Hrun in Hfs.
Defined.

Lemma tie_makes_latest_front_witness :
  front_back Scenario.newer Scenario.twin = (Scenario.newer, Scenario.twin)
  /\ exists rs,
       records (snd (find_and_merge_pairs Scenario.tools (Scenario.sec 1010)
                       Scenario.scans ∅
                       (Scenario.start [Scenario.newer; Scenario.twin])))
       = [] ++ rs
       /\ In (info_pair_detected "newer.pdf" "twin.pdf" 2) rs.
Proof.
  destruct (tie_makes_latest_front Scenario.tools (Scenario.sec 1010)
              Scenario.scans ∅
              (Scenario.start [Scenario.newer; Scenario.twin])
              Scenario.newer [Scenario.twin] Scenario.twin)
    as (Hfb & am' & fs' & rs & Hrun & _ & Hdet).
  - apply NoDup_ListNoDup, (bool_decide_unpack _). vm_compute. exact I.
  - reflexivity.
  - simpl. auto.
  - reflexivity.
  - split; [exact Hfb|]. exists rs. split; [by rewrite Hrun|].
    apply Hdet; [discriminate|reflexivity|apply not_elem_of_empty].
Defined.

Example scenario_tie :
  files (snd (find_and_merge_pairs Scenario.tools (Scenario.sec 1010)
                Scenario.scans ∅
                (Scenario.start [Scenario.newer; Scenario.twin])))
  = [Scenario.newer; Scenario.twin;
     mkFile "merged_20240101_120000_newer_and_twin.pdf" (Scenario.sec 1010)
            (Some [mkPage 180 180; mkPage 6 0; mkPage 45 0; mkPage 5 0])].
Proof. vm_compute. reflexivity. Qed.

Example scenario_failed_merge_is_retried :
  records (snd (find_and_merge_pairs Scenario.one_image (Scenario.sec 1010)
                  Scenario.scans ∅
                  (Scenario.start [Scenario.older; Scenario.newer])))
  = [info_pair_detected "older.pdf" "newer.pdf" 2;
     info_rotating 1 180; warn_unexpected_angle 45;
     error_merge_failed (ValueError (mismatch_message 1 2))].
Proof. vm_compute. reflexivity. Qed.

(** * Further properties of the code *)

(** ** The page corrector when rasterisation works *)

(** The angle the detector returns for a saved image. *)
Definition detected_angle (w : World) (image : Image) : Z :=
  match subprocess_run w image with
  | Ok stdout => reported (PyStr.splitlines stdout)
  | Raise _ => 0
  end.

(** A page after the body of the loop: its rotation moved by the angle. *)
Definition turned (w : World) (pi : Page * Image) : Page :=
  mkPage (content (fst pi)) (rotation (fst pi) + detected_angle w (snd pi)).

Lemma detected_angle_canonical w image :
  canonical_angle (detected_angle w image) = true.
Proof.
  unfold detected_angle. destruct (subprocess_run w image); [|done].
  apply reported_canonical.
Qed.

Lemma rotate_canonical angle page :
  canonical_angle angle = true ->
  rotate angle page = Ok (mkPage (content page) (rotation page + angle)).
Proof.
  intros [->|[->|[->| ->]]]%canonical_angle_spec; reflexivity.
Qed.

Lemma correct_loop_turns (w : World) zipped :
  (forall pi, In pi zipped -> image_save w (snd pi) = Ok tt) ->
  forall i, exists rs, logs (correct_loop w i zipped) (Ok (map (turned w) zipped)) rs.
Proof.
  induction zipped as [|[page image] rest IH]; intros Hsave i; simpl.
  - eexists. apply logs_ret.
  - destruct (detect_rotation_osd_logs w image) as (rd & Hd & _).
    fold (detected_angle w image) in Hd.
    destruct (IH (fun pi H => Hsave pi (or_intror H)) (S i)) as (rr & Hr).
    pose proof (Hsave (page, image) (or_introl eq_refl)) as Hs. simpl in Hs.
    pose proof (detected_angle_canonical w image) as Hcan.
    unfold turned at 1. simpl.
    destruct (detected_angle w image =? 0) eqn:Hz.
    + apply Z.eqb_eq in Hz. eexists.
      eapply (logs_bind _ _ tt); [rewrite Hs; apply logs_lift|].
      eapply logs_bind; [exact Hd|]. rewrite Hz. simpl.
      eapply (logs_bind _ _ page); [apply logs_ret|].
      eapply logs_bind; [exact Hr|].
      rewrite Z.add_0_r. destruct page. apply logs_ret.
    + eexists.
      eapply (logs_bind _ _ tt); [rewrite Hs; apply logs_lift|].
      eapply logs_bind; [exact Hd|]. rewrite Hz. simpl.
      eapply logs_bind.
      { eapply (logs_bind _ _ tt); [apply logs_logger|].
        rewrite (rotate_canonical _ _ Hcan). apply logs_lift. }
      eapply logs_bind; [exact Hr|]. apply logs_ret.
Qed.

(** X1.  When the PDF is readable, [pdf2image] converts it and every image
    is saved, [correct_pdf_pages] returns normally and leaves the folder
    alone.  The result has as many pages as the shorter of the page list and
    the image list: pages without an image are dropped.  Page [i] keeps its
    content and its rotation is moved by the angle detected on image [i],
    one of 0, 90, 180 and 270, so that [rotate] never refuses it. *)
Theorem correct_pdf_pages_rotates (w : World) (pdf_path : File)
    (pages : list Page) (images : list Image) (s : State) :
  reader_pages pdf_path = Some pages ->
  pdf2image_importable w = true ->
  convert_from_path w pdf_path = Ok images ->
  (forall image, In image images -> image_save w image = Ok tt) ->
  exists corrected rs,
    correct_pdf_pages w pdf_path s
      = (Ok corrected, mkState (files s) (records s ++ rs)) /\
    length corrected = Nat.min (length pages) (length images) /\
    forall i page image,
      pages !! i = Some page -> images !! i = Some image ->
      corrected !! i
        = Some (mkPage (content page)
                       (rotation page + detected_angle w image))
      /\ canonical_angle (detected_angle w image) = true.
Proof.
  intros Hread Himp Hconv Hsave.
  destruct (correct_loop_turns w (zip pages images)) with (i := 0%nat)
    as (rs & Hloop).
  { intros [p img] Hin. simpl. apply Hsave.
    apply list_elem_of_In in Hin. apply elem_of_zip_r in Hin.
    by apply list_elem_of_In. }
  assert (H : exists rs', logs (correct_pdf_pages w pdf_path)
                            (Ok (map (turned w) (zip pages images))) rs').
  { unfold correct_pdf_pages, PdfReader. rewrite Hread, Himp, Hconv.
    eexists.
    eapply (logs_bind _ _ pages); [apply logs_lift|].
    eapply (logs_bind _ _ (Some images)); [|exact Hloop].
    apply logs_try_ok.
    eapply (logs_bind _ _ images); [apply logs_lift|apply logs_ret]. }
  destruct H as (rs' & H).
  exists (map (turned w) (zip pages images)), rs'.
  split; [|split].
  - apply H.
  - by rewrite length_map, length_zip_with.
  - intros i page image Hp Hi. split; [|apply detected_angle_canonical].
    rewrite list_lookup_fmap, lookup_zip_with, Hp. simpl. by rewrite Hi.
Qed.

Lemma correct_pdf_pages_rotates_witness :
  exists corrected rs,
    correct_pdf_pages Scenario.tools Scenario.newer (Scenario.start [])
      = (Ok corrected, mkState [] ([] ++ rs)) /\
    length corrected = Nat.min 2 2 /\
    forall i page image,
      [Scenario.blank 180; Scenario.blank 45] !! i = Some page ->
      [180%nat; 45%nat] !! i = Some image ->
      corrected !! i
        = Some (mkPage (content page)
                       (rotation page + detected_angle Scenario.tools image))
      /\ canonical_angle (detected_angle Scenario.tools image) = true.
Proof.
  apply (correct_pdf_pages_rotates Scenario.tools Scenario.newer
           [Scenario.blank 180; Scenario.blank 45] [180%nat; 45%nat]
           (Scenario.start [])); reflexivity.
Defined.

Example corrector_drops_pages_without_image :
  fst (correct_pdf_pages Scenario.one_image Scenario.older
         (Scenario.start []))
  = Ok [Scenario.blank 0].
Proof. reflexivity. Qed.

(** ** The merge engine: all or nothing, and the way back *)



Example merge_unreadable_front_writes_nothing :
  merge_front_back Scenario.tools 7 Scenario.hidden Scenario.newer
    "merged.pdf" (Scenario.start [Scenario.hidden; Scenario.newer])
  = (Raise PdfReadError, Scenario.start [Scenario.hidden; Scenario.newer]).
Proof. reflexivity. Qed.





(** ** What the orientation detector logs *)





Example detect_unparseable_rotate_line_is_silent :
  detect_rotation_osd
    (mkWorld (fun _ => Ok ("Rotate: 90.0" +:+ Scenario.nl))
             true (fun _ => Ok []) (fun _ => Ok tt) (fun _ => ""))
    0%nat (Scenario.start [])
  = (Ok 0, Scenario.start []).
Proof. reflexivity. Qed.

(** ** What a call of the pair finder does to the folder *)















(** ** When the pair finder does nothing, and whom it pairs *)



Example exactly_120_seconds_is_recent :
  files (snd (find_and_merge_pairs Scenario.tools (Scenario.sec 1120)
                Scenario.scans ∅
                (Scenario.start [Scenario.older; Scenario.newer])))
  <> [Scenario.older; Scenario.newer].
Proof. vm_compute. discriminate. Qed.

Lemma counts_match_spec latest c :
  counts_match latest c = true <->
  0 < page_count latest /\ page_count c = page_count latest.
Proof.
  unfold counts_match.
  rewrite andb_true_iff, negb_true_iff, orb_false_iff.
  rewrite !Z.leb_gt, Z.eqb_eq. lia.
Qed.

(** X8.  A candidate that cannot be read, has no page, or has another page
    count than [latest] is never paired with it: no detected pair names it
    and its key is not added to the processed pairs.  This holds when
    [latest] itself cannot be read or has no page, for every candidate. *)
Theorem unmatched_candidate_never_paired (w : World) (now : Z)
    (folder : string) (already_merged : gset (gset string)) (s : State)
    (latest : File) (rest : list File) (c : File) :
  List.NoDup (map name (files s)) ->
  list_pdf_files (files s) = latest :: rest ->
  In c rest ->
  page_count latest <= 0 \/ page_count c <= 0
  \/ page_count latest <> page_count c ->
  exists am' fs' rs,
    find_and_merge_pairs w now folder already_merged s
      = (Ok am', mkState fs' (records s ++ rs)) /\
    (forall fr bk n,
        In (info_pair_detected fr bk n) rs ->
        fr <> name c /\ bk <> name c) /\
    (pair_key folder latest c ∈ am' ->
     pair_key folder latest c ∈ already_merged).
Proof.
  intros Hnd Hl Hc Hbad.
  assert (Hcm : counts_match latest c <> true).
  { rewrite counts_match_spec. lia. }
  apply list_pdf_files_NoDup in Hnd. rewrite Hl in Hnd.
  pose proof (name_not_latest _ _ _ Hnd Hc) as Hne.
  destruct (find_and_merge_pairs_run w now folder already_merged s)
    as (am' & fs' & rs & Hrun & _ & H).
  exists am', fs', rs. split; [done|].
  destruct (scan now (files s)) as [[latest' cands]|] eqn:Hscan.
  - apply scan_Some in Hscan. rewrite Hl in Hscan.
    injection Hscan as <- <-.
    destruct H as (-> & _ & (Hdet & _)). split.
    + intros fr bk n Hin.
      destruct (Hdet _ _ _ Hin) as (c' & [Hc' _]%window_in & Hcm' & Hev).
      apply detected_names in Hev as (-> & -> & _).
      assert (name c' <> name c).
      { intros Hn. apply Hcm.
        by rewrite <- (same_name (latest :: rest) c' c Hnd); simpl; auto. }
      destruct (front_back_cases latest c') as [-> | ->]; simpl;
        split; congruence.
    + intros Hk.
      apply walk_set_spec in Hk
        as [?|(c' & out & [Hc' _]%window_in & Hcm' & _ & Hk)]; [done|].
      apply (key_identifies _ _ rest) in Hk; [|done..]. by subst c'.
  - destruct H as (-> & _ & ->). split; [by intros ? ? ? []|done].
Qed.

Lemma unmatched_candidate_never_paired_witness :
  exists am' fs' rs,
    find_and_merge_pairs Scenario.tools (Scenario.sec 1010) Scenario.scans ∅
      (Scenario.start [Scenario.older; Scenario.newer;
                       mkFile "empty.pdf" (Scenario.sec 990) (Some [])])
      = (Ok am', mkState fs' ([] ++ rs)) /\
    (forall fr bk n,
        In (info_pair_detected fr bk n) rs ->
        fr <> "empty.pdf" /\ bk <> "empty.pdf") /\
    (pair_key Scenario.scans Scenario.newer
       (mkFile "empty.pdf" (Scenario.sec 990) (Some [])) ∈ am' ->
     pair_key Scenario.scans Scenario.newer
       (mkFile "empty.pdf" (Scenario.sec 990) (Some []))
       ∈ (∅ : gset (gset string))).
Proof.
  apply (unmatched_candidate_never_paired Scenario.tools (Scenario.sec 1010)
           Scenario.scans ∅
           (Scenario.start [Scenario.older; Scenario.newer;
                            mkFile "empty.pdf" (Scenario.sec 990) (Some [])])
           Scenario.newer
           [mkFile "empty.pdf" (Scenario.sec 990) (Some []); Scenario.older]
           (mkFile "empty.pdf" (Scenario.sec 990) (Some []))).
  - apply NoDup_ListNoDup, (bool_decide_unpack _). vm_compute. exact I.
  - reflexivity.
  - simpl. auto.
  - right. left. vm_compute. discriminate.
Defined.

(** The loop again, now keeping for every detected pair that its key was
    not among the processed pairs the loop started from. *)
Lemma pair_loop_fresh w now folder latest threshold candidates :
  forall am,
  exists rs,
    (forall fr bk n,
        In (info_pair_detected fr bk n) rs ->
        exists c, In c (window threshold candidates)
                  /\ (pair_key folder latest c ∉ am)
                  /\ info_pair_detected fr bk n = detected latest c) /\
    forall s,
      pair_loop w now folder latest threshold candidates am s
      = (Ok (walk_set w folder latest threshold candidates am),
         mkState (walk_files w now folder latest threshold candidates am
                             (files s))
                 (records s ++ rs)).
Proof.
  induction candidates as [|c rest IH]; intros am.
  { exists []. split; [by intros ? ? ? []|].
    intros s. simpl. unfold ret. by rewrite app_nil_r, state_eta. }
  destruct (Z.ltb_spec (st_mtime c) threshold) as [Hold|Hwin].
  { exists []. split; [by intros ? ? ? []|].
    intros s. rewrite pair_loop_break by done. simpl.
    apply Z.ltb_lt in Hold as ->. by rewrite app_nil_r, state_eta. }
  destruct (pair_loop_step w now folder latest threshold c rest am Hwin)
    as (rc & [Hall _] & Hstep).
  destruct (IH (next_set w folder latest c am)) as (rr & Hdet & Hrest).
  exists (rc ++ rr). split.
  - simpl. rewrite (proj2 (Z.ltb_ge _ _) Hwin).
    intros fr bk n [Hin|Hin]%in_app_iff.
    + rewrite Forall_forall in Hall.
      apply list_elem_of_In, Hall in Hin
        as [Hq|[Ha [->|(e & _ & ?)]]]; [done| |done].
      exists c. split; [by left|]. split; [|done].
      unfold attempts in Ha. apply andb_prop in Ha as [Hk _].
      by apply bool_decide_eq_true in Hk.
    + destruct (Hdet fr bk n Hin) as (c' & ? & Hk & ?).
      exists c'. split; [by right|]. split; [|done].
      intros Hk'. apply Hk. by apply next_set_mono.
  - intros s. rewrite Hstep, Hrest. simpl.
    rewrite (proj2 (Z.ltb_ge _ _) Hwin). by rewrite <- app_assoc.
Qed.

(** X9.  A pair whose key is already among the processed pairs is skipped:
    the call detects no pair with that candidate, so it is not merged a
    second time. *)
Theorem processed_pair_is_skipped (w : World) (now : Z) (folder : string)
    (already_merged : gset (gset string)) (s : State)
    (latest : File) (rest : list File) (c : File) :
  List.NoDup (map name (files s)) ->
  list_pdf_files (files s) = latest :: rest ->
  In c rest ->
  pair_key folder latest c ∈ already_merged ->
  exists am' fs' rs,
    find_and_merge_pairs w now folder already_merged s
      = (Ok am', mkState fs' (records s ++ rs)) /\
    forall fr bk n,
      In (info_pair_detected fr bk n) rs ->
      fr <> name c /\ bk <> name c.
Proof.
  intros Hnd Hl Hc Hdone.
  apply list_pdf_files_NoDup in Hnd. rewrite Hl in Hnd.
  pose proof (name_not_latest _ _ _ Hnd Hc) as Hne.
  destruct (scan now (files s)) as [[latest' cands]|] eqn:Hscan.
  - pose proof (scan_Some _ _ _ _ Hscan) as Hl'. rewrite Hl in Hl'.
    injection Hl' as <- <-.
    destruct (pair_loop_fresh w now folder latest (pair_threshold latest)
                rest already_merged) as (rs & Hdet & Hrun).
    eexists _, _, rs. split.
    { rewrite (find_and_merge_pairs_scan _ _ _ _ _ _ _ Hscan). apply Hrun. }
    intros fr bk n Hin.
    destruct (Hdet _ _ _ Hin) as (c' & [Hc' _]%window_in & Hfresh & Hev).
    apply detected_names in Hev as (-> & -> & _).
    assert (name c' <> name c).
    { intros Hn. apply Hfresh.
      by rewrite (same_name (latest :: rest) c' c Hnd); simpl; auto. }
    destruct (front_back_cases latest c') as [-> | ->]; simpl;
      split; congruence.
  - exists already_merged, (files s), []. split.
    + rewrite find_and_merge_pairs_idle by done.
      by rewrite app_nil_r, state_eta.
    + by intros ? ? ? [].
Qed.

Lemma processed_pair_is_skipped_witness :
  exists am' fs' rs,
    find_and_merge_pairs Scenario.tools (Scenario.sec 1010) Scenario.scans
      {[ pair_key Scenario.scans Scenario.newer Scenario.older ]}
      (Scenario.start [Scenario.older; Scenario.newer])
      = (Ok am', mkState fs' ([] ++ rs)) /\
    forall fr bk n,
      In (info_pair_detected fr bk n) rs ->
      fr <> "older.pdf" /\ bk <> "older.pdf".
Proof.
  apply (processed_pair_is_skipped Scenario.tools (Scenario.sec 1010)
           Scenario.scans
           {[ pair_key Scenario.scans Scenario.newer Scenario.older ]}
           (Scenario.start [Scenario.older; Scenario.newer])
           Scenario.newer [Scenario.older] Scenario.older).
  - apply NoDup_ListNoDup, (bool_decide_unpack _). vm_compute. exact I.
  - reflexivity.
  - simpl. auto.
  - apply elem_of_singleton. reflexivity.
Defined.


(** ** The candidate list *)

Lemma insert_desc_stable (t : Z) f l :
  List.filter (fun g => st_mtime g =? t) (insert_desc f l)
  = List.filter (fun g => st_mtime g =? t) (f :: l).
Proof.
  induction l as [|g l IH]; simpl; [done|].
  destruct (Z.leb_spec (st_mtime g) (st_mtime f)) as [Hle|Hgt]; [done|].
  simpl in *. rewrite IH.
  destruct (Z.eqb_spec (st_mtime f) t) as [Hf|Hf]; [|done].
  by destruct (Z.eqb_spec (st_mtime g) t) as [Hg|Hg]; [lia|].
Qed.

(** X11.  The candidate list is the [.pdf] entries of the folder whose name
    starts neither with [.] nor with [merged_], each as often as the folder
    lists it, newest first; candidates with the same time stamp stay in the
    order in which the folder lists them. *)
Theorem list_pdf_files_newest_first (entries : list File) :
  Permutation (list_pdf_files entries)
              (List.filter eligible (glob_pdf entries)) /\
  StronglySorted (fun a b => st_mtime b <= st_mtime a)
                 (list_pdf_files entries) /\
  forall t,
    List.filter (fun f => st_mtime f =? t) (list_pdf_files entries)
    = List.filter (fun f => st_mtime f =? t)
                  (List.filter eligible (glob_pdf entries)).
Proof.
  split; [apply sorted_desc_perm|]. split; [apply sorted_desc_sorted|].
  intros t. unfold list_pdf_files.
  induction (List.filter eligible (glob_pdf entries)) as [|f l IH]; [done|].
  simpl sorted_desc. rewrite insert_desc_stable. simpl. by rewrite IH.
Qed.

(** ** The watch loop *)

(** [monitor] never returns: it polls for ever.  What is modelled is the run
    up to any number of polling cycles.  A [Tick] is one cycle as the
    outside world shapes it: what the scanner did to the folder while the
    loop slept, and the reading of the clock when the cycle starts.  The
    records of the loop itself join those of the cycles in one journal. *)

Definition WATCH_INTERVAL_SECONDS : Z := 60.

Inductive WatchRecord : Type :=
| cycle_record (r : LogRecord)
| info_watch_started (folder : string) (interval : Z)
| error_watch_cycle (e : exn).

Record Tick : Type := mkTick {
  scanner : list File -> list File;
  clock : Z
}.

Record Watch : Type := mkWatch {
  watched : list File;
  journal : list WatchRecord
}.

(** The body of [while True], up to [time.sleep]: the call under
    [try ... except Exception].  In Python the set is updated in place, so
    that the keys added before an exception would stay; the calls of this
    model never raise, and that branch keeps the set of the cycle before. *)
Definition cycle (w : World) (folder : string) (t : Tick)
    (already_merged : gset (gset string)) (st : Watch)
  : gset (gset string) * Watch :=
  match find_and_merge_pairs w (clock t) folder already_merged
          (mkState (scanner t (watched st)) []) with
  | (Ok already_merged', s') =>
      (already_merged',
       mkWatch (files s') (journal st ++ map cycle_record (records s')))
  | (Raise e, s') =>
      (already_merged,
       mkWatch (files s')
               (journal st ++ map cycle_record (records s')
                  ++ [error_watch_cycle e]))
  end.

Fixpoint watch_loop (w : World) (folder : string) (ticks : list Tick)
    (already_merged : gset (gset string)) (st : Watch)
  : gset (gset string) * Watch :=
  match ticks with
  | [] => (already_merged, st)
  | t :: later =>
      let (already_merged', st') := cycle w folder t already_merged st in
      watch_loop w folder later already_merged' st'
  end.

(** [monitor(folder_path)] over the cycles of [ticks]; [is_dir] is what
    [folder.is_dir()] answers. *)
Definition monitor (w : World) (folder : string) (is_dir : bool)
    (ticks : list Tick) (st : Watch)
  : result (gset (gset string)) * Watch :=
  if negb is_dir then (Raise FileNotFoundError, st)
  else
    let started :=
      mkWatch (watched st)
              (journal st
                 ++ [info_watch_started folder WATCH_INTERVAL_SECONDS]) in
    let (already_merged, st') := watch_loop w folder ticks ∅ started in
    (Ok already_merged, st').

Example monitor_two_cycles :
  let run :=
    monitor Scenario.tools Scenario.scans true
      [mkTick (fun l => l ++ [Scenario.newer]) (Scenario.sec 1010);
       mkTick (fun l => l) (Scenario.sec 1070)]
      (mkWatch [Scenario.older] []) in
  map name (watched (snd run))
  = ["older.pdf"; "newer.pdf"; "merged_20240101_120000_older_and_newer.pdf"]
  /\ journal (snd run)
     = [info_watch_started "/scans" 60;
        cycle_record (info_pair_detected "older.pdf" "newer.pdf" 2);
        cycle_record (info_rotating 2 90);
        cycle_record (info_rotating 1 180);
        cycle_record (warn_unexpected_angle 45);
        cycle_record
          (info_merge_done "merged_20240101_120000_older_and_newer.pdf" 4)].
Proof. vm_compute. split; reflexivity. Qed.

Example monitor_missing_folder :
  monitor Scenario.tools Scenario.scans false
    [mkTick (fun l => l) 0] (mkWatch [] [])
  = (Raise FileNotFoundError, mkWatch [] []).
Proof. reflexivity. Qed.

Lemma cycle_run w folder t am st :
  exists am' fs' rs,
    find_and_merge_pairs w (clock t) folder am
      (mkState (scanner t (watched st)) [])
      = (Ok am', mkState fs' rs)
    /\ cycle w folder t am st
       = (am', mkWatch fs' (journal st ++ map cycle_record rs))
    /\ am ⊆ am'.
Proof.
  destruct (find_and_merge_pairs_run w (clock t) folder am
              (mkState (scanner t (watched st)) []))
    as (am' & fs' & rs & Hrun & _ & H).
  exists am', fs', rs. simpl in Hrun. split; [done|].
  split; [unfold cycle; by rewrite Hrun|].
  simpl in H. destruct (scan _ _) as [[latest cands]|].
  - destruct H as (-> & _). apply walk_set_mono.
  - by destruct H as (-> & _).
Qed.

(** A call that follows a call, on the folder and with the set the first
    one left, changes neither. *)
Lemma call_settles w folder now1 now2 am s am1 fs1 rs1 :
  now1 <= now2 ->
  find_and_merge_pairs w now1 folder am s = (Ok am1, mkState fs1 rs1) ->
  forall rs,
  exists rs2,
    find_and_merge_pairs w now2 folder am1 (mkState fs1 rs)
    = (Ok am1, mkState fs1 (rs ++ rs2)).
Proof.
  intros Hle Hcall rs.
  destruct (find_and_merge_pairs_run w now1 folder am s)
    as (am1' & fs1' & rs1' & Hrun1 & Hcand & H1).
  rewrite Hcall in Hrun1. injection Hrun1 as <- <- _.
  destruct (find_and_merge_pairs_run w now2 folder am1 (mkState fs1 rs))
    as (am2 & fs2 & rs2 & Hrun2 & _ & H2).
  simpl in Hrun2, H2. exists rs2. rewrite Hrun2.
  rewrite (scan_same now2 (files s) fs1 Hcand) in H2.
  destruct (scan now1 (files s)) as [[latest candidates]|] eqn:Hscan1.
  - destruct H1 as (Ham1 & _ & _).
    destruct (scan_candidates _ now2 _ _ _ Hscan1) as [Hnone|Hsome].
    + rewrite Hnone in H2. by destruct H2 as (-> & -> & _).
    + rewrite Hsome in H2. destruct H2 as (Ham2 & Hfs2 & _).
      destruct (walk_idle w now2 folder latest (pair_threshold latest)
                  candidates am1 fs1) as [Hset Hfiles].
      { intros c out Hin Hcm Hm. rewrite Ham1.
        apply walk_set_spec. right. by exists c, out. }
      rewrite Hset in Ham2. rewrite Hfiles in Hfs2. by subst.
  - rewrite (scan_later now1 now2 _ Hle Hscan1) in H2.
    by destruct H2 as (-> & -> & _).
Qed.

(** X12.  Once a cycle has run, later cycles during which the scanner
    leaves the folder alone write nothing and add no key, however many they
    are: a pair is merged once while the loop runs.  The clock of the later
    cycles is not before that of the first. *)
Theorem watch_loop_settles (w : World) (folder : string) (t : Tick)
    (later : list Tick) (already_merged : gset (gset string)) (st : Watch) :
  (forall u, In u later -> forall l, scanner u l = l) ->
  (forall u, In u later -> clock t <= clock u) ->
  fst (watch_loop w folder (t :: later) already_merged st)
    = fst (cycle w folder t already_merged st)
  /\ watched (snd (watch_loop w folder (t :: later) already_merged st))
     = watched (snd (cycle w folder t already_merged st)).
Proof.
  intros Hquiet Hclock. simpl.
  destruct (cycle_run w folder t already_merged st)
    as (am1 & fs1 & rs1 & Hcall & -> & _).
  simpl. generalize (journal st ++ map cycle_record rs1). intros jr.
  revert jr. induction later as [|u later IH]; intros jr; simpl; [done|].
  destruct (call_settles w folder (clock t) (clock u) _ _ _ _ _
              (Hclock u (or_introl eq_refl)) Hcall []) as (rs2 & Hcall2).
  unfold cycle. simpl.
  rewrite (Hquiet u (or_introl eq_refl)), Hcall2. simpl.
  apply IH.
  - intros v Hv. apply Hquiet. by right.
  - intros v Hv. apply Hclock. by right.
Qed.

Lemma watch_loop_settles_witness :
  let first := mkTick (fun l => l ++ [Scenario.newer]) (Scenario.sec 1010) in
  let later := [mkTick (fun l => l) (Scenario.sec 1070);
                mkTick (fun l => l) (Scenario.sec 1130)] in
  fst (watch_loop Scenario.tools Scenario.scans (first :: later) ∅
         (mkWatch [Scenario.older] []))
    = fst (cycle Scenario.tools Scenario.scans first ∅
             (mkWatch [Scenario.older] []))
  /\ watched (snd (watch_loop Scenario.tools Scenario.scans (first :: later)
                     ∅ (mkWatch [Scenario.older] [])))
     = watched (snd (cycle Scenario.tools Scenario.scans first ∅
                       (mkWatch [Scenario.older] []))).
Proof.
  apply (watch_loop_settles Scenario.tools Scenario.scans
           (mkTick (fun l => l ++ [Scenario.newer]) (Scenario.sec 1010))
           [mkTick (fun l => l) (Scenario.sec 1070);
            mkTick (fun l => l) (Scenario.sec 1130)]
           ∅ (mkWatch [Scenario.older] [])).
  - intros u [<-|[<-|[]]] l; reflexivity.
  - intros u [<-|[<-|[]]]; vm_compute; discriminate.
Defined.

(** X13.  While the loop runs, the processed pairs only grow and the
    journal is only extended, whatever the scanner does between the
    cycles. *)
Theorem watch_loop_grows (w : World) (folder : string)
    (ticks more : list Tick) (already_merged : gset (gset string))
    (st : Watch) :
  already_merged ⊆ fst (watch_loop w folder ticks already_merged st)
  /\ fst (watch_loop w folder ticks already_merged st)
       ⊆ fst (watch_loop w folder (ticks ++ more) already_merged st)
  /\ exists added,
       journal (snd (watch_loop w folder (ticks ++ more) already_merged st))
       = journal (snd (watch_loop w folder ticks already_merged st))
           ++ added.
Proof.
  assert (Hgrow : forall l am st0,
             am ⊆ fst (watch_loop w folder l am st0)
             /\ exists added,
                  journal (snd (watch_loop w folder l am st0))
                  = journal st0 ++ added).
  { induction l as [|u l IH]; intros am st0; simpl.
    - split; [done|]. exists []. by rewrite app_nil_r.
    - destruct (cycle_run w folder u am st0)
        as (am' & fs' & rs & _ & -> & Hsub).
      destruct (IH am' (mkWatch fs' (journal st0 ++ map cycle_record rs)))
        as [Hsub' (added & Hj)].
      split; [by etrans|]. simpl in Hj.
      exists (map cycle_record rs ++ added). by rewrite Hj, app_assoc. }
  split; [apply Hgrow|].
  revert already_merged st.
  induction ticks as [|u ticks IH]; intros am st; simpl.
  - apply Hgrow.
  - destruct (cycle w folder u am st) as [am' st']. apply IH.
Qed.
